(** * obsidian-index: the ingestion pipeline and its front ends

    A shallow embedding of [obsidian_index/index/indexer.py],
    [obsidian_index/index/worker.py], [obsidian_index/mcp_server.py] and the
    [index] command of [obsidian_index/main.py], with the properties of the
    ingestion queue, the batch ingest, the watcher callbacks, the loops and
    the tool handler.

    Conventions.  Python objects that the code mutates ([self.ingest_queue],
    the database, the log) are fields of an explicit state record that every
    method takes and returns.  Exceptions are the [Raise] case of [Result].
    Each observable effect on the outside world (opening a file, calling the
    encoder, stat-ing a file, writing a note, running a search) appends one
    [Event] to the state's trace, in program order. *)

From Stdlib Require Import Ascii String ZArith.
From stdpp Require Import gmap strings list.

Open Scope string_scope.
Open Scope list_scope.
Open Scope nat_scope.

(** ** Python values shared by all modules *)

Inductive PyError :=
| FileNotFoundError (p : list string)
| IsADirectoryError (p : list string)
| PermissionError (p : list string)
| KeyError (k : string)
| ValueError (msg : string)
| EncoderError (msg : string).

Inductive Result (A : Type) :=
| Ok (a : A)
| Raise (e : PyError).
Arguments Ok {A} a.
Arguments Raise {A} e.

Definition is_ok {A} (r : Result A) : bool :=
  match r with Ok _ => true | Raise _ => false end.

(** ** [pathlib] and the file system *)

Module Pathlib.

(** A [Path] is held in canonical absolute form: its components from the
    file system's root.  There are no symbolic links in the model, and no
    [.] or [..] components. *)
Definition Path := list string.

(** [Path.name]: the final component, empty for the root. *)
Definition name (p : Path) : string := default "" (last p).


(** [name[i:]] for [i = name.rfind('.')], when there is a dot. *)
Fixpoint from_last_dot (s : string) : option string :=
  match s with
  | EmptyString => None
  | String c s' =>
      match from_last_dot s' with
      | Some t => Some t
      | None => if Ascii.eqb c "."%char then Some s else None
      end
  end.

(** [Path.suffix]:
<<
    i = name.rfind('.')
    if 0 < i < len(name) - 1: return name[i:]
    else: return ''
>>
    With [t = name[i:]], [0 < i] reads [len(t) < len(name)] and
    [i < len(name) - 1] reads [1 < len(t)]. *)
Definition suffix (p : Path) : string :=
  match from_last_dot (name p) with
  | Some t =>
      if Nat.ltb (String.length t) (String.length (name p))
         && Nat.ltb 1 (String.length t)
      then t else ""
  | None => ""
  end.

(** [s.endswith(suf)] *)
Fixpoint endswith (suf s : string) : bool :=
  String.eqb s suf ||
  match s with
  | EmptyString => false
  | String _ s' => endswith suf s'
  end.

(** [fnmatch(name, "*.md")], the test [rglob("*.md")] applies to the final
    component. *)
Definition matches_md (p : Path) : bool := endswith ".md" (name p).

(** [path.relative_to(root)]: the components after [root], or [ValueError]
    when [root] is not a prefix. *)
Fixpoint strip_prefix (root p : Path) : option Path :=
  match root, p with
  | [], _ => Some p
  | r :: root', c :: p' =>
      if decide (r = c) then strip_prefix root' p' else None
  | _ :: _, [] => None
  end.

Definition relative_to (p root : Path) : Result Path :=
  match strip_prefix root p with
  | Some rel => Ok rel
  | None => Raise (ValueError "path is not in the subpath of root")
  end.

(** [Path.resolve()]: on canonical absolute paths, without symbolic links,
    the identity. *)
Definition resolve (p : Path) : Path := p.

(** What a path names.  A file whose [text] is [None] exists but cannot be
    read as text (no permission, or not valid text). *)
Inductive Inode :=
| File (text : option string) (mtime : Z)
| Dir (mtime : Z).

(** The file system: which inode each path names. *)
Abbreviation FS := (gmap Path Inode).

Definition is_file (fs : FS) (p : Path) : bool :=
  match fs !! p with Some (File _ _) => true | _ => false end.

Definition is_dir (fs : FS) (p : Path) : bool :=
  match fs !! p with Some (Dir _) => true | _ => false end.

(** [open(path, "r").read()] *)
Definition read_text (fs : FS) (p : Path) : Result string :=
  match fs !! p with
  | Some (File (Some t) _) => Ok t
  | Some (File None _) => Raise (PermissionError p)
  | Some (Dir _) => Raise (IsADirectoryError p)
  | None => Raise (FileNotFoundError p)
  end.

(** [path.stat().st_mtime] *)
Definition stat_mtime (fs : FS) (p : Path) : Result Z :=
  match fs !! p with
  | Some (File _ m) => Ok m
  | Some (Dir m) => Ok m
  | None => Raise (FileNotFoundError p)
  end.

(** The walk of [rglob] reaches [dir/c1/.../cn] when [dir], [dir/c1], ...,
    [dir/c1/.../c(n-1)] are directories and the entry itself exists. *)
Fixpoint reaches (fs : FS) (dir : Path) (rest : list string) : bool :=
  match rest with
  | [] => false
  | c :: rest' =>
      is_dir fs dir &&
      match rest' with
      | [] => bool_decide (is_Some (fs !! (dir ++ [c])))
      | _ => reaches fs (dir ++ [c]) rest'
      end
  end.

Definition rglob_hit (fs : FS) (root p : Path) : bool :=
  match strip_prefix root p with
  | Some rest => reaches fs root rest && matches_md p
  | None => false
  end.

(** [root.rglob("*.md")]: every entry below [root], at any depth, whose name
    matches.  Directories whose name matches are yielded too.  The order is
    the file system's own. *)
Definition rglob_md (fs : FS) (root : Path) : list Path :=
  filter (fun p => rglob_hit fs root p = true) (map fst (map_to_list fs)).

End Pathlib.

Import Pathlib.

(** ** Collaborators outside the sources *)

(** Modelled from the spec: [obsidian_index/index/database.py] (class
    [Database]) is not among the sources.  The spec gives the store's
    contract: it "maps a vault-relative path to an embedding and a
    modification time, supports lookup/upsert/count"; [upsert] is "keyed by
    (vault, relative_path) (last write wins)"; [num_records() -> int]. *)
Module Database.

Record NoteRecord (Emb : Type) := {
  modified_time : Z;
  embedding : Emb;
}.
Arguments modified_time {Emb} _.
Arguments embedding {Emb} _.

Abbreviation t Emb := (gmap (string * Path) (NoteRecord Emb)).

Definition num_notes {Emb} (db : t Emb) : Z := Z.of_nat (size db).

Definition store_note {Emb} (rel : Path) (vault : string) (mtime : Z)
    (emb : Emb) (db : t Emb) : t Emb :=
  <[(vault, rel) := {| modified_time := mtime; embedding := emb |}]> db.

End Database.

(** What the program does to the outside world, in program order. *)
Inductive Event (Emb : Type) :=
| EvOpen (p : Path)
| EvEncode (texts : list string) (batch_size : Z)
| EvStat (p : Path)
| EvStore (rel : Path) (vault : string) (mtime : Z) (emb : Emb)
| EvSearch (query : string).
Arguments EvOpen {Emb} p.
Arguments EvEncode {Emb} texts batch_size.
Arguments EvStat {Emb} p.
Arguments EvStore {Emb} rel vault mtime emb.
Arguments EvSearch {Emb} query.

Definition is_store {Emb} (e : Event Emb) : bool :=
  match e with EvStore _ _ _ _ => true | _ => false end.

Definition is_encode {Emb} (e : Event Emb) : bool :=
  match e with EvEncode _ _ => true | _ => false end.

Definition is_search {Emb} (e : Event Emb) : bool :=
  match e with EvSearch _ => true | _ => false end.

(** The store writes for one key. *)
Definition is_store_for {Emb} (vault : string) (rel : Path) (e : Event Emb)
    : bool :=
  match e with
  | EvStore r v _ _ => bool_decide (v = vault) && bool_decide (r = rel)
  | _ => false
  end.

Definition count_events {Emb} (f : Event Emb -> bool) (tr : list (Event Emb))
    : nat :=
  length (filter (fun e => f e = true) tr).

(** A record of the [logging] module: level, format string, arguments. *)
Inductive LogArg := ArgPath (p : Path) | ArgInt (n : Z).
Inductive LogLevel := INFO | WARNING.
Record LogRecord := {
  level : LogLevel;
  fmt : string;
  args : list LogArg;
}.

(** A file system notification of [watchdog]. *)
Record FileSystemEvent := {
  is_directory : bool;
  src_path : Path;
}.

(** [dict[str, Path]]: insertion-ordered, looked up by key. *)
Fixpoint dict_get {V} (d : list (string * V)) (k : string) : Result V :=
  match d with
  | [] => Raise (KeyError k)
  | (k', v) :: d' => if decide (k' = k) then Ok v else dict_get d' k
  end.

(** ** [obsidian_index/index/indexer.py] *)

Module Indexer.

Section WithEmbedding.

Context {Emb : Type}.

(** [class Indexer], together with the file system it runs on and the trace
    and log it has produced.  [encoder] is [Encoder.encode_documents]: it
    may raise, and nothing forces the length of what it returns. *)
Record t := {
  fs : FS;
  database : Database.t Emb;
  vaults : list (string * Path);
  encoder : list string -> Z -> Result (list Emb);
  ingest_queue : list (string * Path);
  ingest_batch_size : Z;
  model_batch_size : Z;
  watching : bool;
  trace : list (Event Emb);
  log : list LogRecord;
}.

Definition set_queue (q : list (string * Path)) (s : t) : t :=
  {| fs := fs s; database := database s; vaults := vaults s;
     encoder := encoder s; ingest_queue := q;
     ingest_batch_size := ingest_batch_size s;
     model_batch_size := model_batch_size s; watching := watching s;
     trace := trace s; log := log s |}.

Definition set_database (db : Database.t Emb) (s : t) : t :=
  {| fs := fs s; database := db; vaults := vaults s;
     encoder := encoder s; ingest_queue := ingest_queue s;
     ingest_batch_size := ingest_batch_size s;
     model_batch_size := model_batch_size s; watching := watching s;
     trace := trace s; log := log s |}.

Definition emit (e : Event Emb) (s : t) : t :=
  {| fs := fs s; database := database s; vaults := vaults s;
     encoder := encoder s; ingest_queue := ingest_queue s;
     ingest_batch_size := ingest_batch_size s;
     model_batch_size := model_batch_size s; watching := watching s;
     trace := trace s ++ [e]; log := log s |}.

Definition logger (lv : LogLevel) (f : string) (a : list LogArg) (s : t) : t :=
  {| fs := fs s; database := database s; vaults := vaults s;
     encoder := encoder s; ingest_queue := ingest_queue s;
     ingest_batch_size := ingest_batch_size s;
     model_batch_size := model_batch_size s; watching := watching s;
     trace := trace s;
     log := log s ++ [{| level := lv; fmt := f; args := a |}] |}.

(** Methods that may raise: the state reached and the value or exception. *)
Definition M (A : Type) : Type := t -> Result A * t.

Definition ret {A} (a : A) : M A := fun s => (Ok a, s).

Definition raise {A} (e : PyError) : M A := fun s => (Raise e, s).

Definition bind {A B} (c : M A) (k : A -> M B) : M B :=
  fun s =>
    match c s with
    | (Ok a, s') => k a s'
    | (Raise e, s') => (Raise e, s')
    end.

Definition lift {A} (r : Result A) : M A := fun s => (r, s).

Definition modify (f : t -> t) : M unit := fun s => (Ok tt, f s).

Notation "x <- c ;; k" := (bind c (fun x => k))
  (at level 100, c at next level, right associativity).
Notation "c ;;; k" := (bind c (fun _ => k))
  (at level 100, right associativity).

(** [open(path, "r")] and [f.read()] *)
Definition open_read (path : Path) : M string :=
  fun s => (read_text (fs s) path, emit (EvOpen path) s).

(** [path.stat().st_mtime] *)
Definition stat (path : Path) : M Z :=
  fun s => (stat_mtime (fs s) path, emit (EvStat path) s).

(** [self.encoder.encode_documents(texts, batch_size=self.model_batch_size)] *)
Definition encode_documents (texts : list string) : M (list Emb) :=
  fun s =>
    (encoder s texts (model_batch_size s),
     emit (EvEncode texts (model_batch_size s)) s).

(** [self.database.store_note(rel, vault, mtime, emb)] *)
Definition store_note (rel : Path) (vault : string) (mtime : Z) (emb : Emb)
    : M unit :=
  modify (fun s =>
    emit (EvStore rel vault mtime emb)
      (set_database (Database.store_note rel vault mtime emb (database s)) s)).

(** The loop of lines 86-88:
<<
    for _, path in vault_name_paths:
        with open(path, "r") as f:
            texts.append(f.read())
>> *)
Fixpoint load_texts (vault_name_paths : list (string * Path))
    (texts : list string) : M (list string) :=
  match vault_name_paths with
  | [] => ret texts
  | (_, path) :: rest =>
      text <- open_read path ;;
      load_texts rest (texts ++ [text])
  end.

(** The loop of lines 95-99 over [zip(vault_name_paths, embs, strict=True)]:
    the pairs are produced one at a time, and the length mismatch is raised
    when the shorter argument runs out. *)
Fixpoint store_embeddings (vault_name_paths : list (string * Path))
    (embs : list Emb) : M unit :=
  match vault_name_paths, embs with
  | [], [] => ret tt
  | (vault_name, path) :: rest, emb :: embs' =>
      root <- (fun s => (dict_get (vaults s) vault_name, s)) ;;
      vault_rel_path <- lift (relative_to path root) ;;
      mtime <- stat path ;;
      store_note vault_rel_path vault_name mtime emb ;;;
      store_embeddings rest embs'
  | [], _ :: _ =>
      raise (ValueError "zip() argument 2 is longer than argument 1")
  | _ :: _, [] =>
      raise (ValueError "zip() argument 2 is shorter than argument 1")
  end.

(** [Indexer._do_ingest_paths].  The message with the wall-clock duration of
    the encoder call (line 93) is left out of the log. *)
Definition _do_ingest_paths (vault_name_paths : list (string * Path))
    : M unit :=
  let n := Z.of_nat (length vault_name_paths) in
  modify (logger INFO "Ingesting %d paths" [ArgInt n]) ;;;
  modify (logger INFO "Loading texts for %d paths" [ArgInt n]) ;;;
  texts <- load_texts vault_name_paths [] ;;
  modify (logger INFO "Encoding texts for %d paths" [ArgInt n]) ;;;
  embs <- encode_documents texts ;;
  modify (logger INFO "Storing embeddings for %d paths" [ArgInt n]) ;;;
  store_embeddings vault_name_paths embs.

(** The loop of lines 72-74:
<<
    while self.ingest_queue and len(batch) < self.ingest_batch_size:
        vault_name_path = self.ingest_queue.popleft()
        batch.append(vault_name_path)
>>
    returning the batch and what is left of the queue. *)
Fixpoint collect_batch (max_n : Z) (queue batch : list (string * Path))
    : list (string * Path) * list (string * Path) :=
  match queue with
  | [] => (batch, [])
  | vault_name_path :: queue' =>
      if (Z.of_nat (length batch) <? max_n)%Z
      then collect_batch max_n queue' (batch ++ [vault_name_path])
      else (batch, queue)
  end.

(** [Indexer._do_ingest_batch] *)
Definition _do_ingest_batch : M unit :=
  fun s =>
    let '(batch, queue') := collect_batch (ingest_batch_size s) (ingest_queue s) [] in
    (modify (set_queue queue') ;;;
     modify (logger INFO "Collected batch of %d paths (%d still in queue)"
               [ArgInt (Z.of_nat (length batch));
                ArgInt (Z.of_nat (length queue'))]) ;;;
     _do_ingest_paths batch) s.

(** How a call of [run_ingestor] stands after a number of loop iterations. *)
Inductive Outcome :=
| Returned (s : t)
| Raised (e : PyError) (s : t)
| Waiting (s : t)
| Running (s : t).

(** [Indexer.run_ingestor]:
<<
    while self.ingest_queue or not stop_when_done:
        with self.wait_cv:
            self.wait_cv.wait_for(lambda: bool(self.ingest_queue))
            self._do_ingest_batch()
>>
    [fuel] bounds the iterations looked at: [Running] is the loop still
    going after [fuel] iterations.  [Waiting] is the thread blocked in
    [wait_for] on an empty queue: it goes on only when another thread
    enqueues.  An exception of [_do_ingest_batch] leaves the loop. *)
Fixpoint run_ingestor (fuel : nat) (stop_when_done : bool) (s : t) : Outcome :=
  match fuel with
  | 0 => Running s
  | S fuel' =>
      if negb (bool_decide (ingest_queue s = [])) || negb stop_when_done then
        if bool_decide (ingest_queue s = []) then Waiting s
        else
          match _do_ingest_batch s with
          | (Ok _, s') => run_ingestor fuel' stop_when_done s'
          | (Raise e, s') => Raised e s'
          end
      else Returned s
  end.

(** [Indexer.enqueue_path_for_ingestion].  [notify_all] wakes the thread
    blocked in [wait_for]; it changes nothing in the state. *)
Definition enqueue_path_for_ingestion (vault_name : string) (path : Path)
    (s : t) : t :=
  if is_file (fs s) path
  then set_queue (ingest_queue s ++ [(vault_name, path)]) s
  else logger WARNING "Path is not a file: %s" [ArgPath path] s.

(** [Indexer.find_all_note_paths], the pairs the generator yields. *)
Definition find_all_note_paths (s : t) : list (string * Path) :=
  flat_map (fun '(vault_name, root) =>
              map (fun path => (vault_name, path)) (rglob_md (fs s) root))
           (vaults s).

(** [Indexer.enqueue_all_note_paths_for_ingestion].  The generator's own
    [logger.info] lines (which touch nothing but the log) are issued
    per vault and per note as in the source. *)
Definition enqueue_found (vault_name : string) (s : t) (path : Path) : t :=
  enqueue_path_for_ingestion vault_name path
    (logger INFO "Found note: %s" [ArgPath path] s).

Definition enqueue_vault (s : t) (v : string * Path) : t :=
  let '(vault_name, root) := v in
  foldl (enqueue_found vault_name)
        (logger INFO "Searching in root: %s..." [ArgPath root] s)
        (rglob_md (fs s) root).

Definition enqueue_all_note_paths_for_ingestion (s : t) : t :=
  foldl enqueue_vault (logger INFO "Finding all note paths..." [] s) (vaults s).

(** [Indexer.__init__].  [db] is what [Database(database_path)] opens.  With
    [watch], a [DirectoryWatcher] is started per vault: from then on the
    observer threads call the handlers below. *)
Definition __init__ (disk : FS) (db : Database.t Emb)
    (vaults : list (string * Path))
    (encoder : list string -> Z -> Result (list Emb))
    (watch : bool) (ingest_batch_size model_batch_size : Z) : t :=
  let self :=
    {| fs := disk; database := db; vaults := vaults; encoder := encoder;
       ingest_queue := []; ingest_batch_size := ingest_batch_size;
       model_batch_size := model_batch_size; watching := watch;
       trace := []; log := [] |} in
  if (Database.num_notes (database self) =? 0)%Z
  then enqueue_all_note_paths_for_ingestion self
  else self.

(** [class _FSEventHandler] of indexer.py *)
Record _FSEventHandler := {
  vault_name : string;
  directory : Path;
}.

Definition on_created (h : _FSEventHandler) (event : FileSystemEvent) (s : t) : t :=
  if negb (is_directory event) then
    let path := src_path event in
    if is_file (fs s) path && bool_decide (suffix path = ".md")
    then enqueue_path_for_ingestion (vault_name h) (resolve path) s
    else s
  else s.

Definition on_modified (h : _FSEventHandler) (event : FileSystemEvent) (s : t) : t :=
  if negb (is_directory event) then
    let path := src_path event in
    if is_file (fs s) path && bool_decide (suffix path = ".md")
    then enqueue_path_for_ingestion (vault_name h) (resolve path) s
    else s
  else s.

Definition on_deleted (h : _FSEventHandler) (event : FileSystemEvent) (s : t) : t :=
  if negb (is_directory event) then
    let path := src_path event in
    if is_file (fs s) path && bool_decide (suffix path = ".md")
    then logger WARNING "Deleted file: %s" [ArgPath path] s
    else s
  else s.

Definition on_moved (h : _FSEventHandler) (event : FileSystemEvent) (s : t) : t :=
  if negb (is_directory event) then
    let path := src_path event in
    if is_file (fs s) path && bool_decide (suffix path = ".md")
    then logger WARNING "Moved file: %s" [ArgPath path] s
    else s
  else s.

End WithEmbedding.

Arguments t Emb : clear implicits.
Arguments M Emb A : clear implicits.
Arguments Outcome Emb : clear implicits.

End Indexer.

(** ** [obsidian_index/index/worker.py] *)

Module Worker.

(** The messages of [obsidian_index/index/messages.py], as worker.py builds
    and reads them: [IndexMessage(vault_name, path)],
    [SearchRequestMessage(query)], [SearchResponseMessage(paths=...)]. *)
Record IndexMessage := {
  vault_name : string;
  path : Path;
}.

Record SearchRequestMessage := { query : string }.

Record SearchResponseMessage := { paths : list Path }.

Section WithEmbedding.

Context {Emb : Type}.

(** [class Worker] with the file system, the trace and the log, and the
    part of [BaseWorker]'s control block that the loop reads: the shutdown
    flag, the slot holding the pending request and the slot for its
    response. *)
Record t := {
  fs : FS;
  database : Database.t Emb;
  vaults : list (string * Path);
  ingest_batch_size : Z;
  enqueue_all : bool;
  watch_directories : bool;
  ingest_queue : list IndexMessage;
  shutdown_requested : bool;
  request_slot : option SearchRequestMessage;
  response_slot : option SearchResponseMessage;
  trace : list (Event Emb);
  log : list LogRecord;
}.

Definition set_queue (q : list IndexMessage) (s : t) : t :=
  {| fs := fs s; database := database s; vaults := vaults s;
     ingest_batch_size := ingest_batch_size s; enqueue_all := enqueue_all s;
     watch_directories := watch_directories s; ingest_queue := q;
     shutdown_requested := shutdown_requested s;
     request_slot := request_slot s; response_slot := response_slot s;
     trace := trace s; log := log s |}.

Definition emit (e : Event Emb) (s : t) : t :=
  {| fs := fs s; database := database s; vaults := vaults s;
     ingest_batch_size := ingest_batch_size s; enqueue_all := enqueue_all s;
     watch_directories := watch_directories s; ingest_queue := ingest_queue s;
     shutdown_requested := shutdown_requested s;
     request_slot := request_slot s; response_slot := response_slot s;
     trace := trace s ++ [e]; log := log s |}.

Definition logger (lv : LogLevel) (f : string) (a : list LogArg) (s : t) : t :=
  {| fs := fs s; database := database s; vaults := vaults s;
     ingest_batch_size := ingest_batch_size s; enqueue_all := enqueue_all s;
     watch_directories := watch_directories s; ingest_queue := ingest_queue s;
     shutdown_requested := shutdown_requested s;
     request_slot := request_slot s; response_slot := response_slot s;
     trace := trace s;
     log := log s ++ [{| level := lv; fmt := f; args := a |}] |}.

Definition respond (r : SearchResponseMessage) (s : t) : t :=
  {| fs := fs s; database := database s; vaults := vaults s;
     ingest_batch_size := ingest_batch_size s; enqueue_all := enqueue_all s;
     watch_directories := watch_directories s; ingest_queue := ingest_queue s;
     shutdown_requested := shutdown_requested s;
     request_slot := None; response_slot := Some r;
     trace := trace s; log := log s |}.

(** [Searcher.search] and the [ingest_paths] of the [Indexer] this worker
    was written against are not among the sources: they are parameters.
    The search reads the state; the ingest maps a batch and a state to the
    outcome and the state reached. *)
Variable search : string -> t -> list Path.
Variable ingest_paths : list (string * Path) -> t -> Result unit * t.

(** [Worker.enqueue_vault] and [Worker.enqueue_all_vaults] *)
Definition enqueue_vault (vault_name : string) (vault_path : Path) (s : t) : t :=
  foldl (fun s path =>
           set_queue (ingest_queue s ++ [{| vault_name := vault_name; path := path |}]) s)
        s (rglob_md (fs s) vault_path).

Definition enqueue_all_vaults (s : t) : t :=
  foldl (fun s '(vault_name, vault_path) => enqueue_vault vault_name vault_path s)
        s (vaults s).


(** [Worker.enqueue_path_for_ingestion] *)
Definition enqueue_path_for_ingestion (vault_name : string) (path : Path)
    (s : t) : t :=
  set_queue (ingest_queue s ++ [{| vault_name := vault_name; path := path |}]) s.

(** [Worker.process_message] *)
Definition process_message (message : SearchRequestMessage) (s : t)
    : SearchResponseMessage * t :=
  let paths := search (query message) s in
  ({| paths := paths |}, emit (EvSearch (query message)) s).

(** [Worker.default_work_available] *)
Definition default_work_available (s : t) : bool :=
  negb (bool_decide (ingest_queue s = [])).

(** The loop of lines 94-99:
<<
    for _ in range(self.ingest_batch_size):
        try:
            message = self.ingest_queue.get_nowait()
        except QueueEmpty:
            break
        batch.append((message.vault_name, message.path))
>> *)
Fixpoint get_batch (range : nat) (queue : list IndexMessage)
    (batch : list (string * Path))
    : list (string * Path) * list IndexMessage :=
  match range with
  | 0 => (batch, queue)
  | S range' =>
      match queue with
      | [] => (batch, queue)
      | message :: queue' =>
          get_batch range' queue' (batch ++ [(vault_name message, path message)])
      end
  end.

(** [Worker.default_work] *)
Definition default_work (s : t) : Result unit * t :=
  let '(batch, queue') :=
    get_batch (Z.to_nat (ingest_batch_size s)) (ingest_queue s) [] in
  ingest_paths batch (set_queue queue' s).

(** What one pass of the control loop did. *)
Inductive Wake :=
| Exited
| ServicedRequest (response : SearchResponseMessage)
| IngestedBatch (r : Result unit)
| Idle.

Definition requests_serviced (w : Wake) : nat :=
  match w with ServicedRequest _ => 1 | _ => 0 end.

Definition batches_ingested (w : Wake) : nat :=
  match w with IngestedBatch _ => 1 | _ => 0 end.

(** Modelled from the spec: [obsidian_index/background_worker.py]
    ([BaseWorker], whose loop calls [process_message],
    [default_work_available] and [default_work]) is not among the sources.
    The spec's control loop body: "On each wake: if shutdown requested,
    exit.  Else if a request is pending, service it synchronously (call
    external search, place the response, clear the slot) [...].  Else
    drain_batch(ingest_batch_size) from the ChangeQueue and, if non-empty,
    run IngestionEngine.ingest."  The drain and the ingest are
    [default_work], run when [default_work_available]. *)
Definition control_loop_body (s : t) : Wake * t :=
  if shutdown_requested s then (Exited, s)
  else
    match request_slot s with
    | Some message =>
        let '(response, s') := process_message message s in
        (ServicedRequest response, respond response s')
    | None =>
        if default_work_available s then
          let '(r, s') := default_work s in (IngestedBatch r, s')
        else (Idle, s)
    end.

(** [class _FSEventHandler] of worker.py *)
Record _FSEventHandler := {
  handler_vault_name : string;
  directory : Path;
}.

Definition on_created (h : _FSEventHandler) (event : FileSystemEvent) (s : t) : t :=
  if negb (is_directory event) then
    let path := src_path event in
    if is_file (fs s) path && bool_decide (suffix path = ".md")
    then enqueue_path_for_ingestion (handler_vault_name h) (resolve path)
           (logger INFO "Created file: %s" [ArgPath path] s)
    else s
  else s.

Definition on_modified (h : _FSEventHandler) (event : FileSystemEvent) (s : t) : t :=
  if negb (is_directory event) then
    let path := src_path event in
    if is_file (fs s) path && bool_decide (suffix path = ".md")
    then enqueue_path_for_ingestion (handler_vault_name h) (resolve path)
           (logger INFO "Modified file: %s" [ArgPath path] s)
    else s
  else s.

Definition on_deleted (h : _FSEventHandler) (event : FileSystemEvent) (s : t) : t :=
  if negb (is_directory event) then
    let path := src_path event in
    if is_file (fs s) path && bool_decide (suffix path = ".md")
    then logger WARNING "Deleted file: %s" [ArgPath path] s
    else s
  else s.

Definition on_moved (h : _FSEventHandler) (event : FileSystemEvent) (s : t) : t :=
  if negb (is_directory event) then
    let path := src_path event in
    if is_file (fs s) path && bool_decide (suffix path = ".md")
    then logger WARNING "Moved file: %s" [ArgPath path] s
    else s
  else s.

End WithEmbedding.

Arguments t Emb : clear implicits.

End Worker.

(** ** [obsidian_index/mcp_server.py] *)

Module McpServer.



Section WithEmbedding.

Context {Emb : Type}.

(** [Searcher.search] is not among the sources: a parameter, reading the
    database. *)
Variable search : Database.t Emb -> string -> list Path.



End WithEmbedding.

End McpServer.

(** ** [obsidian_index/main.py] *)

Module Main.

(** [d[k] = v] on an insertion-ordered dict. *)
Fixpoint dict_set {V} (d : list (string * V)) (k : string) (v : V)
    : list (string * V) :=
  match d with
  | [] => [(k, v)]
  | (k', v') :: d' =>
      if decide (k' = k) then (k, v) :: d' else (k', v') :: dict_set d' k v
  end.

(** [{vault_path.name: vault_path for vault_path in vault_paths}] *)
Definition vaults_of (vault_paths : list Path) : list (string * Path) :=
  foldl (fun d vault_path => dict_set d (name vault_path) vault_path)
        [] vault_paths.

(** [index_cmd]: build the indexer, then [run_ingestor(stop_when_done=not
    watch)], looked at for [fuel] iterations of its loop. *)
Definition index_cmd {Emb : Type} (fuel : nat) (disk : FS) (db : Database.t Emb)
    (encoder : list string -> Z -> Result (list Emb))
    (vault_paths : list Path) (watch : bool)
    (ingest_batch_size model_batch_size : Z) : Indexer.Outcome Emb :=
  Indexer.run_ingestor fuel (negb watch)
    (Indexer.__init__ disk db (vaults_of vault_paths) encoder watch
       ingest_batch_size model_batch_size).

End Main.

(** ** Vocabulary of the statements *)

Module Spec.

Import Indexer.

Section WithEmbedding.

Context {Emb : Type}.

(** What no method of the indexer changes after construction. *)
Definition frame (s s' : Indexer.t Emb) : Prop :=
  fs s' = fs s /\ vaults s' = vaults s /\ encoder s' = encoder s /\
  ingest_batch_size s' = ingest_batch_size s /\
  model_batch_size s' = model_batch_size s /\ watching s' = watching s.

(** The files the loading loop opens: each path up to and including the
    first that cannot be read. *)
Fixpoint opened (disk : FS) (paths : list Path) : list Path :=
  match paths with
  | [] => []
  | p :: ps => p :: (if is_ok (read_text disk p) then opened disk ps else [])
  end.

(** The texts of the loading loop, or the exception of the first file that
    cannot be read. *)
Fixpoint read_all (disk : FS) (paths : list Path) (acc : list string)
    : Result (list string) :=
  match paths with
  | [] => Ok acc
  | p :: ps =>
      match read_text disk p with
      | Ok t => read_all disk ps (acc ++ [t])
      | Raise e => Raise e
      end
  end.

(** One completed pass of the storing loop: the item, what was computed for
    it and the embedding it was paired with. *)
Record Stored := {
  st_vault : string;
  st_path : Path;
  st_rel : Path;
  st_mtime : Z;
  st_emb : Emb;
}.

Definition st_item (x : Stored) : string * Path := (st_vault x, st_path x).

Definition st_events (x : Stored) : list (Event Emb) :=
  [EvStat (st_path x); EvStore (st_rel x) (st_vault x) (st_mtime x) (st_emb x)].

Definition st_write (db : Database.t Emb) (x : Stored) : Database.t Emb :=
  Database.store_note (st_rel x) (st_vault x) (st_mtime x) (st_emb x) db.

(** The stored key is the path relative to the vault's root, and the stored
    time is what [stat] gives for the file. *)
Definition st_valid (s : Indexer.t Emb) (x : Stored) : Prop :=
  exists root,
    dict_get (vaults s) (st_vault x) = Ok root /\
    relative_to (st_path x) root = Ok (st_rel x) /\
    stat_mtime (fs s) (st_path x) = Ok (st_mtime x).

(** An item whose ingest cannot fail: its file can be read as text and lies
    under the root of its vault. *)
Definition ingestible (s : Indexer.t Emb) (item : string * Path) : Prop :=
  is_ok (read_text (fs s) item.2) = true /\
  exists root rel,
    dict_get (vaults s) item.1 = Ok root /\ relative_to item.2 root = Ok rel.

(** The encoder's contract in the spec: "same length and order as input". *)
Definition encoder_contract (enc : list string -> Z -> Result (list Emb)) : Prop :=
  forall texts n, exists embs, enc texts n = Ok embs /\ length embs = length texts.

(** An item fit for the queue: an existing regular file named [*.md]. *)
Definition md_file (disk : FS) (item : string * Path) : bool :=
  is_file disk item.2 && matches_md item.2.


End WithEmbedding.

End Spec.

(** Appending a run of events to the trace. *)
Definition emits {Emb : Type} (evs : list (Event Emb)) (s : Indexer.t Emb)
    : Indexer.t Emb :=
  foldl (fun s e => Indexer.emit e s) s evs.

(** The regular files that [rglob("*.md")] yields under a root. *)
Definition note_files (disk : FS) (root : Path) : list Path :=
  filter (fun p => is_file disk p = true) (rglob_md disk root).

(** The items of a full scan: per vault, its note files. *)
Definition scan_items (disk : FS) (vaults : list (string * Path))
    : list (string * Path) :=
  flat_map (fun v => map (fun p => (v.1, p)) (note_files disk v.2)) vaults.

(** Two indexer states that differ at most in the log. *)
Definition indexer_same_but_log {Emb : Type} (s s' : Indexer.t Emb) : Prop :=
  Indexer.fs s' = Indexer.fs s /\
  Indexer.database s' = Indexer.database s /\
  Indexer.vaults s' = Indexer.vaults s /\
  Indexer.encoder s' = Indexer.encoder s /\
  Indexer.ingest_queue s' = Indexer.ingest_queue s /\
  Indexer.ingest_batch_size s' = Indexer.ingest_batch_size s /\
  Indexer.model_batch_size s' = Indexer.model_batch_size s /\
  Indexer.watching s' = Indexer.watching s /\
  Indexer.trace s' = Indexer.trace s.

(** Two worker states that differ at most in the log. *)
Definition worker_same_but_log {Emb : Type} (s s' : Worker.t Emb) : Prop :=
  Worker.fs s' = Worker.fs s /\
  Worker.database s' = Worker.database s /\
  Worker.vaults s' = Worker.vaults s /\
  Worker.ingest_batch_size s' = Worker.ingest_batch_size s /\
  Worker.enqueue_all s' = Worker.enqueue_all s /\
  Worker.watch_directories s' = Worker.watch_directories s /\
  Worker.ingest_queue s' = Worker.ingest_queue s /\
  Worker.shutdown_requested s' = Worker.shutdown_requested s /\
  Worker.request_slot s' = Worker.request_slot s /\
  Worker.response_slot s' = Worker.response_slot s /\
  Worker.trace s' = Worker.trace s.

(** The log is the old one, or the old one and one more warning. *)
Definition at_most_one_warning (old new : list LogRecord) : Prop :=
  new = old \/ exists r, new = old ++ [r] /\ level r = WARNING.

(** ** A small installation *)

Module Example.

(** One vault [/vault] with two readable notes, a note in a subdirectory
    that cannot be read, a directory named like a note, and a file that is
    no note. *)
Definition disk : FS :=
  list_to_map
    [ (["vault"], Dir 1);
      (["vault"; "a.md"], File (Some "alpha") 10);
      (["vault"; "b.md"], File (Some "beta") 20);
      (["vault"; "sub"], Dir 2);
      (["vault"; "sub"; "c.md"], File None 30);
      (["vault"; "dir.md"], Dir 3);
      (["vault"; "todo.txt"], File (Some "gamma") 40) ].

(** Three vaults with 5, 0 and 2 notes. *)
Definition disk3 : FS :=
  list_to_map
    [ (["one"], Dir 1);
      (["one"; "n1.md"], File (Some "1") 11);
      (["one"; "n2.md"], File (Some "2") 12);
      (["one"; "n3.md"], File (Some "3") 13);
      (["one"; "deep"], Dir 2);
      (["one"; "deep"; "n4.md"], File (Some "4") 14);
      (["one"; "deep"; "n5.md"], File (Some "5") 15);
      (["one"; "deep"; "image.png"], File None 16);
      (["two"], Dir 3);
      (["two"; "readme.txt"], File (Some "r") 21);
      (["three"], Dir 4);
      (["three"; "m1.md"], File (Some "x") 31);
      (["three"; "m2.md"], File (Some "y") 32) ].

Definition vaults3 : list (string * Path) :=
  [("one", ["one"]); ("two", ["two"]); ("three", ["three"])].

(** An encoder that keeps its contract (the embedding is the length of the
    text), and one that returns one embedding too few. *)
Definition encoder (texts : list string) (batch_size : Z) : Result (list nat) :=
  Ok (map String.length texts).

Definition short_encoder (texts : list string) (batch_size : Z)
    : Result (list nat) :=
  Ok (map String.length (drop 1 texts)).

Definition indexer (enc : list string -> Z -> Result (list nat))
    (queue : list (string * Path)) (batch_size : Z) : Indexer.t nat :=
  {| Indexer.fs := disk; Indexer.database := ∅;
     Indexer.vaults := [("vault", ["vault"])]; Indexer.encoder := enc;
     Indexer.ingest_queue := queue; Indexer.ingest_batch_size := batch_size;
     Indexer.model_batch_size := 16; Indexer.watching := false;
     Indexer.trace := []; Indexer.log := [] |}.

Definition a_md : string * Path := ("vault", ["vault"; "a.md"]).
Definition b_md : string * Path := ("vault", ["vault"; "b.md"]).
Definition c_md : string * Path := ("vault", ["vault"; "sub"; "c.md"]).


Definition notes_search (db : Database.t nat) (query : string) : list Path :=
  [["vault"; "b.md"]; ["vault"; "a.md"]].

Definition worker (queue : list Worker.IndexMessage)
    (request : option Worker.SearchRequestMessage) : Worker.t nat :=
  {| Worker.fs := disk; Worker.database := ∅;
     Worker.vaults := [("vault", ["vault"])]; Worker.ingest_batch_size := 8;
     Worker.enqueue_all := false; Worker.watch_directories := true;
     Worker.ingest_queue := queue; Worker.shutdown_requested := false;
     Worker.request_slot := request; Worker.response_slot := None;
     Worker.trace := []; Worker.log := [] |}.

(** A worker's searcher and ingest that touch nothing. *)
Definition worker_search (query : string) (s : Worker.t nat) : list Path :=
  [["vault"; "a.md"]].

Definition worker_ingest (batch : list (string * Path)) (s : Worker.t nat)
    : Result unit * Worker.t nat :=
  (Ok tt, s).

Definition a_message : Worker.IndexMessage :=
  {| Worker.vault_name := "vault"; Worker.path := ["vault"; "a.md"] |}.

End Example.

(** ** Vocabulary of the further statements *)

(** The key a completed pass writes under. *)
Definition st_key {Emb : Type} (x : @Spec.Stored Emb) : string * Path :=
  (Spec.st_vault x, Spec.st_rel x).

(** The record a completed pass writes. *)
Definition st_record {Emb : Type} (x : @Spec.Stored Emb) : Database.NoteRecord Emb :=
  {| Database.modified_time := Spec.st_mtime x; Database.embedding := Spec.st_emb x |}.

(** What a run of passes leaves under a key: the record of the last pass
    that wrote there. *)
Fixpoint written {Emb : Type} (l : list (@Spec.Stored Emb)) (k : string * Path)
    : option (Database.NoteRecord Emb) :=
  match l with
  | [] => None
  | x :: l' =>
      match written l' k with
      | Some r => Some r
      | None => if decide (st_key x = k) then Some (st_record x) else None
      end
  end.

(** An item the storing loop can complete: its vault is configured and its
    path lies under the vault's root. *)
Definition storable {Emb : Type} (s : Indexer.t Emb) (item : string * Path) : Prop :=
  exists root rel,
    dict_get (Indexer.vaults s) item.1 = Ok root /\ relative_to item.2 root = Ok rel.



(** ** [run_background_indexer] of mcp_server.py *)

Module Launcher.

(** An element of the argument list handed to [subprocess.Popen]: a string
    or a [Path]. *)
Inductive Arg :=
| ArgStr (s : string)
| ArgPath (p : Path).

(** How the call ends: the [assert] fails, or the process is started with
    an argument list. *)
Inductive Launch :=
| AssertionError (msg : string)
| Popen (args : list Arg).

(** [run_background_indexer].  [executable] and [argv0] are
    [sys.executable] and [sys.argv[0]].  The two [logger.info] lines, one of
    them with the process id, are left out; the started process is not
    waited for. *)
Definition run_background_indexer (executable argv0 : string)
    (vaults : list (string * Path)) (database_path : Path) : Launch :=
  if forallb (fun '(vault_name, vault_path) =>
                bool_decide (name vault_path = vault_name)) vaults
  then
    let vault_options :=
      flat_map (fun vault_path => [ArgStr "--vault"; ArgPath vault_path])
               (map snd vaults) in
    Popen ([ArgStr executable; ArgStr argv0; ArgStr "index";
            ArgStr "--database"; ArgPath database_path]
           ++ vault_options ++ [ArgStr "--watch"])
  else
    AssertionError
      ("Due to the way we get the vault name from the path, "
       +:+ "the vault name must match the directory name. "
       +:+ "This may be relaxed in the future.").

End Launcher.

(** The paths an argument list gives for an option: each path that follows
    an occurrence of the option's name. *)
Fixpoint option_values (opt : string) (args : list Launcher.Arg) : list Path :=
  match args with
  | [] => []
  | a :: rest =>
      match a, rest with
      | Launcher.ArgStr o, Launcher.ArgPath v :: _ =>
          if decide (o = opt) then [v] else []
      | _, _ => []
      end ++ option_values opt rest
  end.


(** ** A second small installation *)

Module Example2.


(** An encoder that fails. *)
Definition failing_encoder (texts : list string) (batch_size : Z)
    : Result (list nat) :=
  Raise (EncoderError "out of memory").

(** An item of a vault that is not configured, and one outside its vault. *)
Definition stranger : string * Path := ("other", ["vault"; "b.md"]).
Definition outsider : string * Path := ("vault", ["elsewhere"; "b.md"]).



End Example2.

(** The warnings of a log, and the warning of [enqueue_path_for_ingestion]. *)
Definition is_warning (r : LogRecord) : bool :=
  match level r with WARNING => true | INFO => false end.

Definition warnings (l : list LogRecord) : list LogRecord :=
  filter (fun r => is_warning r = true) l.

Definition not_a_file_warning (p : Path) : LogRecord :=
  {| level := WARNING; fmt := "Path is not a file: %s"; args := [ArgPath p] |}.

(** * Properties *)

(** ** Paths and the file system *)

Module PathlibProps.





Lemma strip_prefix_app (root p rel : Path) :
  strip_prefix root p = Some rel -> p = root ++ rel.
Proof.
  revert p. induction root as [|r root IH]; intros [|c p]; simpl; try congruence.
  destruct (decide (r = c)) as [->|]; [|discriminate].
  intros H. f_equal. auto.
Qed.

Lemma rglob_md_elem (fs : FS) (root p : Path) :
  p ∈ rglob_md fs root <-> rglob_hit fs root p = true /\ is_Some (fs !! p).
Proof.
  unfold rglob_md. rewrite list_elem_of_filter, list_elem_of_fmap.
  split.
  - intros [H [[q i] [-> Hin]]]. split; [exact H|].
    apply elem_of_map_to_list in Hin. simpl. eauto.
  - intros [H [i Hi]]. split; [exact H|].
    exists (p, i). split; [reflexivity|]. apply elem_of_map_to_list. exact Hi.
Qed.

Lemma rglob_md_NoDup (fs : FS) (root : Path) : NoDup (rglob_md fs root).
Proof. apply NoDup_filter, NoDup_fst_map_to_list. Qed.


Lemma rglob_md_relative (fs : FS) (root p : Path) :
  p ∈ rglob_md fs root -> is_ok (relative_to p root) = true.
Proof.
  rewrite rglob_md_elem. unfold rglob_hit, relative_to. intros [H _].
  destruct (strip_prefix root p); [reflexivity|discriminate].
Qed.

End PathlibProps.

(** ** The ingestion queue and the batch ingest of indexer.py *)

Module IndexerProps.

Import Indexer Spec PathlibProps.

Section WithEmbedding.

Context {Emb : Type}.

Implicit Types (s : Indexer.t Emb) (items queue batch : list (string * Path)).

Lemma frame_refl s : frame s s.
Proof. repeat split. Qed.

Lemma frame_trans s1 s2 s3 : frame s1 s2 -> frame s2 s3 -> frame s1 s3.
Proof.
  unfold frame. intros (?&?&?&?&?&?) (?&?&?&?&?&?).
  repeat split; congruence.
Qed.

Lemma emits_app (evs1 evs2 : list (Event Emb)) s :
  emits (evs1 ++ evs2) s = emits evs2 (emits evs1 s).
Proof. unfold emits. apply foldl_app. Qed.

Lemma emits_fields (evs : list (Event Emb)) s :
  frame s (emits evs s) /\
  ingest_queue (emits evs s) = ingest_queue s /\
  database (emits evs s) = database s /\
  log (emits evs s) = log s /\
  trace (emits evs s) = trace s ++ evs.
Proof.
  revert s. induction evs as [|e evs IH]; intros s.
  - cbn. rewrite app_nil_r. repeat split.
  - change (emits (e :: evs) s) with (emits evs (emit e s)).
    destruct (IH (emit e s)) as ((?&?&?&?&?&?)&?&?&?&Ht).
    repeat split; try assumption.
    rewrite Ht. cbn. rewrite <- app_assoc. reflexivity.
Qed.

(** *** Draining *)

Lemma collect_batch_spec (max_n : Z) queue batch :
  collect_batch max_n queue batch =
  (batch ++ take (Z.to_nat max_n - length batch) queue,
   drop (Z.to_nat max_n - length batch) queue).
Proof.
  revert batch. induction queue as [|x queue IH]; intros batch.
  - cbn. rewrite take_nil, drop_nil, app_nil_r. reflexivity.
  - cbn [collect_batch]. destruct (Z.ltb_spec (Z.of_nat (length batch)) max_n) as [Hlt|Hge].
    + rewrite IH, length_app. cbn [length].
      replace (Z.to_nat max_n - length batch) with (S (Z.to_nat max_n - (length batch + 1))) by lia.
      cbn. rewrite <- app_assoc. reflexivity.
    + replace (Z.to_nat max_n - length batch) with 0 by lia.
      cbn. rewrite app_nil_r. reflexivity.
Qed.

Lemma collect_batch_take (max_n : Z) queue :
  collect_batch max_n queue [] =
  (take (Z.to_nat max_n) queue, drop (Z.to_nat max_n) queue).
Proof. rewrite collect_batch_spec. cbn. rewrite Nat.sub_0_r. reflexivity. Qed.

(** A batch size below one drains nothing. *)
Lemma collect_batch_nonpositive (max_n : Z) queue :
  (max_n <= 0)%Z -> collect_batch max_n queue [] = ([], queue).
Proof.
  intros H. rewrite collect_batch_take.
  replace (Z.to_nat max_n) with 0 by lia. rewrite take_0, drop_0. reflexivity.
Qed.

(** *** Loading the texts *)

Lemma load_texts_spec items (acc : list string) s :
  load_texts items acc s =
  (read_all (fs s) (map snd items) acc,
   emits (map EvOpen (opened (fs s) (map snd items))) s).
Proof.
  revert acc s. induction items as [|[v p] items IH]; intros acc s.
  - reflexivity.
  - cbn [load_texts map snd read_all opened]. unfold bind, open_read.
    destruct (read_text (fs s) p) as [t|e] eqn:E.
    + rewrite IH. reflexivity.
    + reflexivity.
Qed.

Lemma read_all_length (disk : FS) (paths : list Path) (acc texts : list string) :
  read_all disk paths acc = Ok texts ->
  length texts = length acc + length paths.
Proof.
  revert acc. induction paths as [|p paths IH]; intros acc; cbn.
  - intros [= <-]. lia.
  - destruct (read_text disk p); [|discriminate].
    intros H. apply IH in H. rewrite length_app in H. cbn in H. lia.
Qed.

Lemma read_all_opened (disk : FS) (paths : list Path) (acc : list string) :
  is_ok (read_all disk paths acc) = true -> opened disk paths = paths.
Proof.
  revert acc. induction paths as [|p paths IH]; intros acc; cbn; [reflexivity|].
  destruct (read_text disk p); [|discriminate].
  intros H. cbn. f_equal. eauto.
Qed.

Lemma read_all_ok (disk : FS) (paths : list Path) (acc : list string) :
  Forall (fun p => is_ok (read_text disk p) = true) paths ->
  is_ok (read_all disk paths acc) = true.
Proof.
  intros H. revert acc. induction H as [|p paths Hp _ IH]; intros acc; cbn.
  - reflexivity.
  - destruct (read_text disk p); [apply IH|discriminate].
Qed.

Lemma read_all_fails (disk : FS) (paths : list Path) (acc : list string) :
  Exists (fun p => is_ok (read_text disk p) = false) paths ->
  is_ok (read_all disk paths acc) = false.
Proof.
  intros H. revert acc. induction H as [p paths Hp|p paths _ IH]; intros acc; cbn.
  - destruct (read_text disk p); [discriminate|reflexivity].
  - destruct (read_text disk p); [apply IH|reflexivity].
Qed.

Lemma opened_prefix (disk : FS) (paths : list Path) :
  opened disk paths = take (length (opened disk paths)) paths.
Proof.
  induction paths as [|p paths IH]; cbn; [reflexivity|].
  destruct (is_ok (read_text disk p)); cbn; [|rewrite take_0; reflexivity].
  f_equal. exact IH.
Qed.

(** *** Storing the embeddings *)

Lemma st_valid_frame s s' (x : Stored) :
  frame s s' -> st_valid s' x -> st_valid s x.
Proof.
  intros (Hfs & Hv & _) (root & H1 & H2 & H3). exists root.
  rewrite <- Hfs, <- Hv. auto.
Qed.

Lemma ingestible_frame s s' (item : string * Path) :
  frame s s' -> ingestible s item -> ingestible s' item.
Proof.
  intros (Hfs & Hv & _) (H1 & root & rel & H2 & H3). split.
  - rewrite Hfs. exact H1.
  - exists root, rel. rewrite Hv. auto.
Qed.

Lemma read_ok_stat_ok (disk : FS) (p : Path) :
  is_ok (read_text disk p) = true -> is_ok (stat_mtime disk p) = true.
Proof.
  unfold read_text, stat_mtime.
  destruct (disk !! p) as [[[t|] m|m]|]; cbn; congruence.
Qed.

(** The loop ends in its first pass, without a [stat] or a write. *)
Local Ltac stopped_at_once :=
  intros [= <- <-];
  split; [apply frame_refl|]; split; [reflexivity|]; split; [reflexivity|];
  exists [], []; cbn; rewrite app_nil_r; repeat split; auto; discriminate.

(** The storing loop, whatever its outcome: it has completed the passes for
    a prefix of the zipped pairs, each pass a [stat] followed by the write
    of that pass's record, and at most one more [stat], one that failed. *)
Lemma store_embeddings_shape items (embs : list Emb) s r s' :
  store_embeddings items embs s = (r, s') ->
  frame s s' /\ ingest_queue s' = ingest_queue s /\ log s' = log s /\
  exists (stored : list Stored) (last : list (Event Emb)),
    trace s' = trace s ++ flat_map st_events stored ++ last /\
    database s' = foldl st_write (database s) stored /\
    map st_item stored = take (length stored) items /\
    map st_emb stored = take (length stored) embs /\
    Forall (st_valid s) stored /\
    (last = [] \/
     exists x, items !! length stored = Some x /\ last = [EvStat x.2] /\
               is_ok (stat_mtime (fs s) x.2) = false) /\
    (is_ok r = true ->
     length stored = length items /\ length embs = length items /\ last = []).
Proof.
  revert embs s r s'.
  induction items as [|[v p] items IH]; intros [|emb embs] s r s'.
  - stopped_at_once.
  - stopped_at_once.
  - stopped_at_once.
  - cbn [store_embeddings]. unfold bind at 1.
    destruct (dict_get (vaults s) v) as [root|e] eqn:Eroot.
    2:{ stopped_at_once. }
    unfold bind at 1, lift.
    destruct (relative_to p root) as [rel|e] eqn:Erel.
    2:{ stopped_at_once. }
    unfold bind at 1, stat.
    destruct (stat_mtime (fs s) p) as [m|e] eqn:Estat.
    2:{ intros [= <- <-]. split; [repeat split|]. split; [reflexivity|]. split; [reflexivity|].
        exists [], [EvStat p]. cbn. repeat split; auto; try discriminate.
        right. exists (v, p). cbn. rewrite Estat. auto. }
    unfold bind at 1, store_note, modify.
    set (s1 := emit (EvStore rel v m emb) _).
    intros H. apply IH in H.
    destruct H as (Hfr & Hq & Hlog & stored & last & Htr & Hdb & Hit & Hemb & Hval & Hlast & Hok).
    assert (Hfr1 : frame s s1) by (repeat split).
    split; [eapply frame_trans; eassumption|].
    split; [rewrite Hq; reflexivity|]. split; [rewrite Hlog; reflexivity|].
    set (x := {| st_vault := v; st_path := p; st_rel := rel; st_mtime := m; st_emb := emb |}).
    exists (x :: stored), last. cbn [length flat_map foldl take map].
    split.
    { rewrite Htr. subst s1. cbn. rewrite <- !app_assoc. reflexivity. }
    split; [rewrite Hdb; reflexivity|].
    split; [rewrite <- Hit; reflexivity|].
    split; [rewrite <- Hemb; reflexivity|].
    split.
    { constructor.
      - exists root. auto.
      - eapply Forall_impl; [exact Hval|]. intros y. apply st_valid_frame. exact Hfr1. }
    split.
    { destruct Hlast as [->|(y & Hy & -> & Hs)]; [left; reflexivity|].
      right. exists y. cbn. auto. }
    intros Hr. destruct (Hok Hr) as (? & ? & ?). cbn. repeat split; auto.
Qed.

(** The storing loop succeeds on items that cannot fail, paired with as many
    embeddings. *)
Lemma store_embeddings_ok items (embs : list Emb) s :
  Forall (ingestible s) items -> length embs = length items ->
  is_ok (store_embeddings items embs s).1 = true.
Proof.
  revert embs s. induction items as [|[v p] items IH]; intros [|emb embs] s Hall Hlen;
    try discriminate; [reflexivity|].
  apply Forall_cons in Hall as [(Hread & root & rel & Hroot & Hrel) Hall].
  cbn in Hroot, Hrel, Hread.
  cbn [store_embeddings]. unfold bind at 1. rewrite Hroot.
  unfold bind at 1, lift. rewrite Hrel.
  unfold bind at 1, stat.
  apply read_ok_stat_ok in Hread.
  destruct (stat_mtime (fs s) p) as [m|]; [|discriminate].
  unfold bind at 1, store_note, modify.
  apply IH.
  - eapply Forall_impl; [exact Hall|]. intros y. apply ingestible_frame. repeat split.
  - cbn in Hlen. lia.
Qed.

(** A length mismatch between the items and the embeddings makes the
    storing loop raise. *)
Lemma store_embeddings_mismatch items (embs : list Emb) s :
  length embs <> length items ->
  is_ok (store_embeddings items embs s).1 = false.
Proof.
  intros Hne. destruct (store_embeddings items embs s) as [r s'] eqn:E.
  apply store_embeddings_shape in E.
  destruct E as (_ & _ & _ & stored & last & _ & _ & _ & _ & _ & _ & Hok).
  cbn. destruct (is_ok r) eqn:Er; [|reflexivity].
  destruct (Hok eq_refl) as (_ & ? & _). contradiction.
Qed.

(** *** One ingest *)

(** [_do_ingest_paths], whatever its outcome.  The trace it adds is: the
    opens of the loading loop; then, if every file was read, the one call of
    the encoder on the texts read; then, if the encoder returned, the passes
    of the storing loop. *)
Lemma do_ingest_paths_shape items s r s' :
  _do_ingest_paths items s = (r, s') ->
  frame s s' /\ ingest_queue s' = ingest_queue s /\
  exists (enc : list (Event Emb)) (stored : list Stored) (last : list (Event Emb)),
    trace s' = trace s ++ map EvOpen (opened (fs s) (map snd items)) ++ enc
                 ++ flat_map st_events stored ++ last /\
    database s' = foldl st_write (database s) stored /\
    Forall (st_valid s) stored /\
    map st_item stored = take (length stored) items /\
    (last = [] \/
     exists x, items !! length stored = Some x /\ last = [EvStat x.2] /\
               is_ok (stat_mtime (fs s) x.2) = false) /\
    (is_ok r = true -> length stored = length items /\ last = []) /\
    match read_all (fs s) (map snd items) [] with
    | Raise e => r = Raise e /\ enc = [] /\ stored = [] /\ last = []
    | Ok texts =>
        enc = [EvEncode texts (model_batch_size s)] /\
        match encoder s texts (model_batch_size s) with
        | Raise e => r = Raise e /\ stored = [] /\ last = []
        | Ok embs =>
            map st_emb stored = take (length stored) embs /\
            (is_ok r = true -> length embs = length items)
        end
    end.
Proof.
  unfold _do_ingest_paths.
  unfold bind at 1, modify. unfold bind at 1.
  set (s0 := logger _ _ _ (logger _ _ _ s)).
  unfold bind at 1. rewrite load_texts_spec.
  change (fs s0) with (fs s).
  destruct (emits_fields (map EvOpen (opened (fs s) (map snd items))) s0)
    as (Hfr0 & Hq0 & Hdb0 & _ & Htr0).
  set (s1 := emits _ s0) in *.
  destruct (read_all (fs s) (map snd items) []) as [texts|e] eqn:Eread.
  2:{ intros [= <- <-]. split; [exact Hfr0|]. split; [exact Hq0|].
      exists [], [], []. cbn. rewrite !app_nil_r.
      repeat split; auto; discriminate. }
  unfold bind at 1. unfold bind at 1, encode_documents.
  destruct Hfr0 as (Hfs0 & Hv0 & Henc0 & Hbs0 & Hmbs0 & Hw0).
  change (fs s0) with (fs s) in Hfs0. change (vaults s0) with (vaults s) in Hv0.
  change (encoder s0) with (encoder s) in Henc0.
  change (model_batch_size s0) with (model_batch_size s) in Hmbs0.
  change (ingest_batch_size s0) with (ingest_batch_size s) in Hbs0.
  change (watching s0) with (watching s) in Hw0.
  change (ingest_queue s0) with (ingest_queue s) in Hq0.
  change (database s0) with (database s) in Hdb0.
  change (trace s0) with (trace s) in Htr0.
  cbn [logger encoder model_batch_size].
  rewrite Henc0, Hmbs0.
  destruct (encoder s texts (model_batch_size s)) as [embs|e] eqn:Eenc.
  2:{ intros [= <- <-]. split; [repeat split; assumption|]. split; [exact Hq0|].
      exists [EvEncode texts (model_batch_size s)], [], [].
      cbn. rewrite Htr0, <- !app_assoc.
      repeat split; auto; discriminate. }
  unfold bind at 1.
  set (s2 := logger _ _ _ (emit _ (logger _ _ _ s1))).
  assert (Hfr2 : frame s s2) by (repeat split; assumption).
  intros H. apply store_embeddings_shape in H.
  destruct H as (Hfr & Hq & _ & stored & last & Htr & Hdb & Hit & Hemb & Hval & Hlast & Hok).
  split; [eapply frame_trans; eassumption|].
  split; [rewrite Hq; exact Hq0|].
  exists [EvEncode texts (model_batch_size s)], stored, last.
  split.
  { rewrite Htr. subst s2. cbn. rewrite Htr0, <- !app_assoc. reflexivity. }
  split; [rewrite Hdb; subst s2; cbn; rewrite Hdb0; reflexivity|].
  split.
  { eapply Forall_impl; [exact Hval|]. intros y. apply st_valid_frame. exact Hfr2. }
  split; [exact Hit|].
  split.
  { destruct Hlast as [->|(y & Hy & -> & Hs)]; [left; reflexivity|].
    right. exists y. replace (fs s) with (fs s2) by apply Hfr2. auto. }
  split; [intros Hr; destruct (Hok Hr) as (? & ? & ?); auto|].
  split; [reflexivity|]. split; [exact Hemb|].
  intros Hr. destruct (Hok Hr) as (? & ? & ?); auto.
Qed.

(** An ingest of items that cannot fail, with an encoder that keeps its
    contract, succeeds. *)
Lemma do_ingest_paths_ok items s :
  encoder_contract (encoder s) -> Forall (ingestible s) items ->
  is_ok (_do_ingest_paths items s).1 = true.
Proof.
  intros Henc Hall. unfold _do_ingest_paths.
  unfold bind at 1, modify. unfold bind at 1.
  set (s0 := logger _ _ _ (logger _ _ _ s)).
  unfold bind at 1. rewrite load_texts_spec. change (fs s0) with (fs s).
  destruct (emits_fields (map EvOpen (opened (fs s) (map snd items))) s0)
    as (Hfr0 & _).
  set (s1 := emits _ s0) in *.
  assert (Hread : is_ok (read_all (fs s) (map snd items) []) = true).
  { apply read_all_ok. apply Forall_fmap. eapply Forall_impl; [exact Hall|].
    intros y Hy. apply Hy. }
  destruct (read_all (fs s) (map snd items) []) as [texts|] eqn:Eread; [|discriminate].
  apply read_all_length in Eread. rewrite length_map in Eread. cbn in Eread.
  unfold bind at 1. unfold bind at 1, encode_documents.
  destruct Hfr0 as (Hfs0 & Hv0 & Henc0 & Hbs0 & Hmbs0 & Hw0).
  change (encoder s0) with (encoder s) in Henc0.
  cbn [logger encoder model_batch_size].
  rewrite Henc0.
  destruct (Henc texts (model_batch_size s1)) as (embs & -> & Hlen).
  unfold bind at 1.
  apply store_embeddings_ok; [|lia].
  eapply Forall_impl; [exact Hall|]. intros y. apply ingestible_frame.
  repeat split; assumption.
Qed.

(** *** One batch *)

Lemma do_ingest_batch_unfold s :
  _do_ingest_batch s =
  _do_ingest_paths (take (Z.to_nat (ingest_batch_size s)) (ingest_queue s))
    (logger INFO "Collected batch of %d paths (%d still in queue)"
       [ArgInt (Z.of_nat (length (take (Z.to_nat (ingest_batch_size s)) (ingest_queue s))));
        ArgInt (Z.of_nat (length (drop (Z.to_nat (ingest_batch_size s)) (ingest_queue s))))]
       (set_queue (drop (Z.to_nat (ingest_batch_size s)) (ingest_queue s)) s)).
Proof. unfold _do_ingest_batch. rewrite collect_batch_take. reflexivity. Qed.

(** [_do_ingest_batch], whatever its outcome: the batch is taken off the
    head of the queue for good, and ingested. *)
Lemma do_ingest_batch_shape s r s' :
  _do_ingest_batch s = (r, s') ->
  let n := Z.to_nat (ingest_batch_size s) in
  let batch := take n (ingest_queue s) in
  frame s s' /\ ingest_queue s' = drop n (ingest_queue s) /\
  exists (enc : list (Event Emb)) (stored : list Stored) (last : list (Event Emb)),
    trace s' = trace s ++ map EvOpen (opened (fs s) (map snd batch)) ++ enc
                 ++ flat_map st_events stored ++ last /\
    database s' = foldl st_write (database s) stored /\
    Forall (st_valid s) stored /\
    map st_item stored = take (length stored) batch /\
    (is_ok r = true -> length stored = length batch /\ last = []) /\
    (is_ok (read_all (fs s) (map snd batch) []) = false ->
     is_ok r = false /\ enc = [] /\ stored = [] /\ last = []) /\
    (is_ok (read_all (fs s) (map snd batch) []) = true ->
     exists texts, enc = [EvEncode texts (model_batch_size s)]) /\
    Forall (fun e => is_store e = false /\ is_search e = false) last.
Proof.
  rewrite do_ingest_batch_unfold. intros H n batch.
  apply do_ingest_paths_shape in H.
  destruct H as (Hfr & Hq & enc & stored & last & Htr & Hdb & Hval & Hit & Hlast & Hok & Hcase).
  split; [exact Hfr|]. split; [exact Hq|].
  exists enc, stored, last.
  split; [exact Htr|]. split; [exact Hdb|].
  split.
  { eapply Forall_impl; [exact Hval|]. intros y. apply st_valid_frame. repeat split. }
  split; [exact Hit|]. split; [exact Hok|].
  cbn [fs logger set_queue model_batch_size] in Hcase. fold n batch in Hcase.
  split; [|split].
  - intros Hf. destruct (read_all (fs s) (map snd batch) []); [discriminate|].
    destruct Hcase as (-> & -> & -> & ->). auto.
  - intros Ht. destruct (read_all (fs s) (map snd batch) []) as [texts|]; [|discriminate].
    exists texts. apply Hcase.
  - destruct Hlast as [->|(y & _ & -> & _)]; repeat constructor.
Qed.

(** A batch of items that cannot fail is ingested whole. *)
Lemma do_ingest_batch_ok s :
  encoder_contract (encoder s) -> Forall (ingestible s) (ingest_queue s) ->
  exists s' texts (stored : list Stored),
    _do_ingest_batch s = (Ok tt, s') /\
    frame s s' /\
    ingest_queue s' = drop (Z.to_nat (ingest_batch_size s)) (ingest_queue s) /\
    trace s' = trace s
      ++ map EvOpen (map snd (take (Z.to_nat (ingest_batch_size s)) (ingest_queue s)))
      ++ [EvEncode texts (model_batch_size s)] ++ flat_map st_events stored /\
    database s' = foldl st_write (database s) stored /\
    Forall (st_valid s) stored /\
    map st_item stored = take (Z.to_nat (ingest_batch_size s)) (ingest_queue s).
Proof.
  intros Henc Hall.
  set (n := Z.to_nat (ingest_batch_size s)). set (batch := take n (ingest_queue s)).
  assert (Hb : Forall (ingestible s) batch) by (apply Forall_take; exact Hall).
  destruct (_do_ingest_batch s) as [r s'] eqn:E.
  assert (Hr : is_ok r = true).
  { pose proof (f_equal fst E) as E1. cbn in E1. rewrite <- E1.
    rewrite do_ingest_batch_unfold. apply do_ingest_paths_ok; [exact Henc|].
    eapply Forall_impl; [exact Hb|]. intros y. apply ingestible_frame. repeat split. }
  apply do_ingest_batch_shape in E. cbn zeta in E. fold n batch in E.
  destruct E as (Hfr & Hq & enc & stored & last & Htr & Hdb & Hval & Hit & Hok & _ & Henc' & _).
  destruct (Hok Hr) as (Hlen & ->).
  assert (Hread : is_ok (read_all (fs s) (map snd batch) []) = true).
  { apply read_all_ok, Forall_fmap. eapply Forall_impl; [exact Hb|]. intros y Hy. apply Hy. }
  destruct (Henc' Hread) as (texts & ->).
  rewrite (read_all_opened _ _ _ Hread) in Htr.
  destruct r as [[]|]; [|discriminate].
  exists s', texts, stored. rewrite app_nil_r in Htr.
  rewrite Hlen, firstn_all in Hit.
  repeat split; auto; apply Hfr.
Qed.

(** *** Counting the writes *)

Lemma count_events_app (f : Event Emb -> bool) (tr1 tr2 : list (Event Emb)) :
  count_events f (tr1 ++ tr2) = count_events f tr1 + count_events f tr2.
Proof. unfold count_events. rewrite filter_app, length_app. reflexivity. Qed.

Lemma count_events_none (f : Event Emb -> bool) (tr : list (Event Emb)) :
  Forall (fun e => f e = false) tr -> count_events f tr = 0.
Proof.
  unfold count_events. induction 1 as [|e tr He _ IH]; [reflexivity|].
  rewrite filter_cons_False; [exact IH|]. congruence.
Qed.

Lemma count_events_opens (f : Event Emb -> bool) (ps : list Path) :
  (forall p, f (EvOpen p) = false) -> count_events f (map EvOpen ps) = 0.
Proof. intros H. apply count_events_none, Forall_fmap, Forall_forall. intros p _. apply H. Qed.

Lemma count_stores_stored (stored : list (@Stored Emb)) :
  count_events is_store (flat_map st_events stored) = length stored.
Proof.
  induction stored as [|x stored IH]; [reflexivity|].
  cbn [flat_map]. rewrite count_events_app, IH. reflexivity.
Qed.

Lemma strip_prefix_append (root rel : Path) : strip_prefix root (root ++ rel) = Some rel.
Proof.
  induction root as [|r root IH]; [reflexivity|].
  cbn. destruct (decide (r = r)); [exact IH|contradiction].
Qed.

Lemma get_batch_spec (n : nat) (messages : list Worker.IndexMessage)
    (batch : list (string * Path)) :
  Worker.get_batch n messages batch =
  (batch ++ map (fun m => (Worker.vault_name m, Worker.path m)) (take n messages),
   drop n messages).
Proof.
  revert messages batch. induction n as [|n IH]; intros [|m messages] batch; cbn;
    rewrite ?app_nil_r; try reflexivity.
  rewrite IH, <- app_assoc. reflexivity.
Qed.

Lemma count_key_stored s (V : string) (root rel : Path) (stored : list Stored) :
  dict_get (vaults s) V = Ok root -> Forall (st_valid s) stored ->
  count_events (is_store_for V rel) (flat_map st_events stored) =
  length (filter (fun it : string * Path =>
                    it.1 = V /\ strip_prefix root it.2 = Some rel)
                 (map st_item stored)).
Proof.
  intros Hroot. induction 1 as [|x stored (root' & H1 & H2 & _) _ IH]; [reflexivity|].
  cbn [flat_map map]. rewrite count_events_app, IH. clear IH.
  unfold st_events, count_events, st_item at 2.
  rewrite filter_cons_False by discriminate.
  unfold relative_to in H2.
  destruct (strip_prefix root' (st_path x)) as [rel'|] eqn:E; [|discriminate].
  injection H2 as H2.
  destruct (decide (st_vault x = V /\ st_rel x = rel)) as [[Hv Hr]|Hn].
  - rewrite filter_cons_True.
    2:{ cbn. rewrite Hv, Hr, !bool_decide_eq_true_2 by reflexivity. reflexivity. }
    rewrite filter_cons_True; [reflexivity|].
    cbn. split; [exact Hv|]. rewrite Hv in H1. rewrite Hroot in H1.
    injection H1 as <-. rewrite E. congruence.
  - rewrite filter_cons_False.
    2:{ cbn. intros H. apply andb_true_iff in H as [Ha Hb].
        apply bool_decide_eq_true in Ha, Hb. tauto. }
    rewrite filter_cons_False; [reflexivity|].
    cbn. intros [Hv Hs]. apply Hn. split; [exact Hv|].
    rewrite Hv in H1. rewrite Hroot in H1. injection H1 as <-. congruence.
Qed.

(** Enqueueing regular files one after the other appends them to the queue
    in that order, repeated ones included. *)
Lemma enqueue_sequence items s :
  Forall (fun it : string * Path => is_file (fs s) it.2 = true) items ->
  ingest_queue (foldl (fun s it => enqueue_path_for_ingestion it.1 it.2 s) s items)
  = ingest_queue s ++ items.
Proof.
  revert s. induction items as [|[v p] items IH]; intros s Hall.
  - cbn. rewrite app_nil_r. reflexivity.
  - apply Forall_cons in Hall as [Hp Hall]. cbn [foldl fst snd] in *.
    unfold enqueue_path_for_ingestion at 2. rewrite Hp.
    rewrite IH by exact Hall. cbn [ingest_queue set_queue].
    rewrite <- app_assoc. reflexivity.
Qed.

(** C1.  Items enqueued one after the other stand in the queue in that
    order.  One drain takes at most [max_n] items off the head of the queue, in
    enqueue order and without merging repeated items, in [_do_ingest_batch]
    of indexer.py and in [default_work] of worker.py alike.  With the queue
    [(V, a.md); (V, b.md); (V, a.md)] and batch size 2, where both files can
    be read under the root of [V] and the encoder keeps its contract, the
    first batch is [(V, a.md); (V, b.md)], the second is [(V, a.md)], and the
    two ingests write the note [a.md] of [V] exactly twice. *)
Theorem drain_batch_fifo (max_n : Z) (queue : list (string * Path))
    (messages : list Worker.IndexMessage) :
  (1 <= max_n)%Z ->
  (forall s : Indexer.t Emb,
     Forall (fun it : string * Path => is_file (fs s) it.2 = true) queue ->
     ingest_queue (foldl (fun s it => enqueue_path_for_ingestion it.1 it.2 s) s queue)
     = ingest_queue s ++ queue) /\
  (let '(batch, rest) := collect_batch max_n queue [] in
   length batch <= Z.to_nat max_n /\
   batch = take (Z.to_nat max_n) queue /\ batch ++ rest = queue /\
   length batch = min (Z.to_nat max_n) (length queue)) /\
  (let '(batch, rest) := Worker.get_batch (Z.to_nat max_n) messages [] in
   length batch <= Z.to_nat max_n /\
   batch = map (fun m => (Worker.vault_name m, Worker.path m))
               (take (Z.to_nat max_n) messages) /\
   take (Z.to_nat max_n) messages ++ rest = messages) /\
  (forall (s : Indexer.t Emb) (V : string) (root : Path),
     let a := root ++ ["a.md"] in
     let b := root ++ ["b.md"] in
     ingest_queue s = [(V, a); (V, b); (V, a)] ->
     ingest_batch_size s = 2%Z ->
     dict_get (vaults s) V = Ok root ->
     is_ok (read_text (fs s) a) = true ->
     is_ok (read_text (fs s) b) = true ->
     encoder_contract (encoder s) ->
     collect_batch 2 (ingest_queue s) [] = ([(V, a); (V, b)], [(V, a)]) /\
     exists s1 s2,
       _do_ingest_batch s = (Ok tt, s1) /\
       ingest_queue s1 = [(V, a)] /\
       collect_batch 2 (ingest_queue s1) [] = ([(V, a)], []) /\
       _do_ingest_batch s1 = (Ok tt, s2) /\
       ingest_queue s2 = [] /\
       count_events (is_store_for V ["a.md"]) (trace s2) =
       count_events (is_store_for V ["a.md"]) (trace s) + 2).
Proof.
  intros Hn. split; [|split; [|split]].
  - intros s. apply enqueue_sequence.
  - rewrite collect_batch_take.
    rewrite length_take, take_drop. repeat split; lia.
  - rewrite get_batch_spec. cbn [app].
    rewrite length_map, length_take, take_drop. repeat split; lia.
  - intros s V root a b Hq Hbs Hroot Ha Hb Henc.
    assert (Hia : ingestible s (V, a)).
    { split; [exact Ha|]. exists root, ["a.md"]. split; [exact Hroot|].
      unfold relative_to. cbn [snd]. subst a. rewrite strip_prefix_append. reflexivity. }
    assert (Hib : ingestible s (V, b)).
    { split; [exact Hb|]. exists root, ["b.md"]. split; [exact Hroot|].
      unfold relative_to. cbn [snd]. subst b. rewrite strip_prefix_append. reflexivity. }
    split; [rewrite Hq; reflexivity|].
    destruct (do_ingest_batch_ok s Henc) as (s1 & texts1 & st1 & E1 & Hfr1 & Hq1 & Htr1 & _ & Hv1 & Hit1).
    { rewrite Hq. repeat (apply Forall_cons_2; [assumption|]). apply Forall_nil_2. }
    rewrite Hq, Hbs in Hq1, Hit1, Htr1.
    change (Z.to_nat 2) with 2 in Hq1, Hit1, Htr1. cbn [take drop] in Hq1, Hit1.
    destruct (do_ingest_batch_ok s1) as (s2 & texts2 & st2 & E2 & Hfr2 & Hq2 & Htr2 & _ & Hv2 & Hit2).
    { destruct Hfr1 as (_ & _ & -> & _). exact Henc. }
    { rewrite Hq1. apply Forall_cons_2; [|apply Forall_nil_2].
      eapply ingestible_frame; eassumption. }
    assert (Hbs1 : ingest_batch_size s1 = 2%Z)
      by (destruct Hfr1 as (_ & _ & _ & -> & _); exact Hbs).
    rewrite Hq1, Hbs1 in Hq2, Hit2, Htr2.
    change (Z.to_nat 2) with 2 in Hq2, Hit2, Htr2. cbn [take drop] in Hq2, Hit2.
    exists s1, s2. split; [exact E1|]. split; [exact Hq1|].
    split; [rewrite Hq1; reflexivity|]. split; [exact E2|]. split; [exact Hq2|].
    assert (Hroot1 : dict_get (vaults s1) V = Ok root)
      by (destruct Hfr1 as (_ & -> & _); exact Hroot).
    rewrite Htr2, Htr1, !count_events_app.
    rewrite !count_events_opens by reflexivity.
    rewrite (count_key_stored s V root _ st1 Hroot Hv1), Hit1.
    rewrite (count_key_stored s1 V root _ st2 Hroot1 Hv2), Hit2.
    subst a b.
    assert (Hya : strip_prefix root (root ++ ["a.md"]) = Some ["a.md"])
      by apply strip_prefix_append.
    assert (Hyb : strip_prefix root (root ++ ["b.md"]) <> Some ["a.md"])
      by (rewrite strip_prefix_append; discriminate).
    rewrite !filter_cons_True by (cbn; auto).
    rewrite (filter_cons_False _ (V, root ++ ["b.md"])) by (cbn; tauto).
    rewrite !filter_cons_True by (cbn; auto).
    rewrite !filter_nil.
    rewrite !(count_events_none _ [EvEncode _ _])
      by (apply Forall_cons_2; [reflexivity|apply Forall_nil_2]).
    cbn [length]. lia.
Qed.

Lemma read_all_texts (disk : FS) (paths : list Path) (acc texts : list string) :
  read_all disk paths acc = Ok texts ->
  exists ts, texts = acc ++ ts /\
             Forall2 (fun p t => read_text disk p = Ok t) paths ts.
Proof.
  revert acc. induction paths as [|p paths IH]; intros acc; cbn.
  - intros [= <-]. exists []. rewrite app_nil_r. split; [reflexivity|constructor].
  - destruct (read_text disk p) as [t|] eqn:E; [|discriminate].
    intros H. destruct (IH _ H) as (ts & -> & Hts).
    exists (t :: ts). rewrite <- app_assoc. split; [reflexivity|].
    constructor; assumption.
Qed.

Lemma stored_length_le (stored : list (@Stored Emb)) items :
  map st_item stored = take (length stored) items -> length stored <= length items.
Proof.
  intros H. apply (f_equal length) in H.
  rewrite length_map, length_take in H. lia.
Qed.

(** C4.  When the file of some item of a batch cannot be read, the ingest
    raises; what it has done by then is open the files up to that one.  The
    encoder has not been called, nothing has been written to the store, and
    the database is as before.  In [_do_ingest_batch] the items of the batch
    have left the queue and are not put back, and the exception leaves
    [run_ingestor]. *)
Theorem read_error_aborts_batch (items : list (string * Path)) (s : Indexer.t Emb) :
  Exists (fun item => is_ok (read_text (fs s) item.2) = false) items ->
  (exists e s',
     _do_ingest_paths items s = (Raise e, s') /\
     trace s' = trace s ++ map EvOpen (opened (fs s) (map snd items)) /\
     count_events is_encode (trace s') = count_events is_encode (trace s) /\
     count_events is_store (trace s') = count_events is_store (trace s) /\
     database s' = database s /\
     ingest_queue s' = ingest_queue s) /\
  (items = take (Z.to_nat (ingest_batch_size s)) (ingest_queue s) ->
   exists e s',
     _do_ingest_batch s = (Raise e, s') /\
     count_events is_encode (trace s') = count_events is_encode (trace s) /\
     count_events is_store (trace s') = count_events is_store (trace s) /\
     database s' = database s /\
     ingest_queue s' = drop (length items) (ingest_queue s) /\
     ingest_queue s = items ++ ingest_queue s' /\
     forall fuel stop_when_done,
       run_ingestor (S fuel) stop_when_done s = Raised e s').
Proof.
  intros Hex.
  assert (Hread : forall s0, fs s0 = fs s ->
            is_ok (read_all (fs s0) (map snd items) []) = false).
  { intros s0 ->. apply read_all_fails, Exists_fmap. exact Hex. }
  assert (Hmain : forall s0, fs s0 = fs s -> exists e s',
     _do_ingest_paths items s0 = (Raise e, s') /\
     trace s' = trace s0 ++ map EvOpen (opened (fs s0) (map snd items)) /\
     count_events is_encode (trace s') = count_events is_encode (trace s0) /\
     count_events is_store (trace s') = count_events is_store (trace s0) /\
     database s' = database s0 /\
     ingest_queue s' = ingest_queue s0).
  { intros s0 Hfs. specialize (Hread s0 Hfs).
    destruct (_do_ingest_paths items s0) as [r s'] eqn:E.
    apply do_ingest_paths_shape in E.
    destruct E as (_ & Hq & enc & stored & last & Htr & Hdb & _ & _ & _ & _ & Hcase).
    destruct (read_all (fs s0) (map snd items) []) as [|e]; [discriminate|].
    destruct Hcase as (-> & -> & -> & ->).
    cbn in Htr, Hdb. rewrite app_nil_r in Htr.
    exists e, s'. split; [reflexivity|]. split; [exact Htr|].
    rewrite Htr, !count_events_app, !count_events_opens by reflexivity.
    repeat split; auto; lia. }
  split; [apply Hmain; reflexivity|].
  intros Hitems.
  set (n := Z.to_nat (ingest_batch_size s)) in *.
  rewrite do_ingest_batch_unfold. fold n. rewrite <- Hitems.
  match goal with |- context [_do_ingest_paths items ?s0] =>
    destruct (Hmain s0 eq_refl) as (e & s' & E & _ & Hc1 & Hc2 & Hdb & Hq) end.
  exists e, s'. split; [exact E|].
  cbn [trace database ingest_queue logger set_queue] in Hc1, Hc2, Hdb, Hq.
  assert (Hlen : length items = n `min` length (ingest_queue s))
    by (rewrite Hitems; apply length_take).
  assert (Hdrop : drop (length items) (ingest_queue s) = drop n (ingest_queue s)).
  { rewrite Hlen. destruct (Nat.min_spec n (length (ingest_queue s))) as [[_ ->]|[Hle ->]];
      [reflexivity|].
    rewrite !drop_ge by lia. reflexivity. }
  split; [exact Hc1|]. split; [exact Hc2|]. split; [exact Hdb|].
  split; [rewrite Hq, Hdrop; reflexivity|].
  split; [rewrite Hq, Hitems; symmetry; apply take_drop|].
  intros fuel stop. cbn [run_ingestor].
  assert (Hne : ingest_queue s <> []).
  { intros Hnil. rewrite Hnil, take_nil in Hitems. subst items. inversion Hex. }
  rewrite (bool_decide_eq_false_2 _ Hne). cbn [negb orb].
  rewrite do_ingest_batch_unfold. fold n. rewrite <- Hitems, E. reflexivity.
Qed.

(** C7.  Whatever the outcome of an ingest, the trace it adds is, in this
    order: the opens of the files (a prefix of the batch, all of it when no
    read failed); the one call of the encoder, on the texts read from those
    files; and for a prefix of the batch, item by item, the [stat] of the
    file followed by the write of its record.  Each record written for an
    item [(vault, path)] has the key [(vault, path relative to the root of
    vault)], the time that [stat] gave, and the embedding the encoder
    returned at the item's position; the database is the old one with these
    records written in order.  When the ingest succeeds the prefix is the
    whole batch. *)
Theorem ingest_reads_encode_stat_store (items : list (string * Path))
    (s : Indexer.t Emb) :
  let r := (_do_ingest_paths items s).1 in
  let s' := (_do_ingest_paths items s).2 in
  exists (opens : list Path) (enc : list (Event Emb)) (stored : list Stored)
         (last : list (Event Emb)),
    trace s' = trace s ++ map EvOpen opens ++ enc
                 ++ flat_map st_events stored ++ last /\
    opens = take (length opens) (map snd items) /\
    (enc = [] /\ stored = [] /\ last = [] \/
     exists texts,
       enc = [EvEncode texts (model_batch_size s)] /\
       opens = map snd items /\
       Forall2 (fun p t => read_text (fs s) p = Ok t) opens texts /\
       (stored = [] /\ last = [] \/
        exists embs,
          encoder s texts (model_batch_size s) = Ok embs /\
          map st_emb stored = take (length stored) embs)) /\
    map st_item stored = take (length stored) items /\
    Forall (st_valid s) stored /\
    (last = [] \/ exists p, last = [EvStat p] /\ is_ok (stat_mtime (fs s) p) = false) /\
    database s' = foldl st_write (database s) stored /\
    (is_ok r = true -> map st_item stored = items /\ last = [] /\ enc <> []).
Proof.
  intros r s'. subst r s'.
  destruct (_do_ingest_paths items s) as [r s'] eqn:E. cbn [fst snd].
  apply do_ingest_paths_shape in E.
  destruct E as (_ & _ & enc & stored & last & Htr & Hdb & Hval & Hit & Hlast & Hok & Hcase).
  exists (opened (fs s) (map snd items)), enc, stored, last.
  split; [exact Htr|]. split; [apply opened_prefix|].
  assert (Hlast' : last = [] \/ exists p, last = [EvStat p] /\ is_ok (stat_mtime (fs s) p) = false).
  { destruct Hlast as [->|(x & _ & -> & Hx)]; [left; reflexivity|right; eauto]. }
  destruct (read_all (fs s) (map snd items) []) as [texts|e] eqn:Eread.
  - destruct Hcase as (-> & Hcase).
    assert (Hop : opened (fs s) (map snd items) = map snd items)
      by (eapply read_all_opened; rewrite Eread; reflexivity).
    split.
    { right. exists texts. split; [reflexivity|]. split; [exact Hop|].
      destruct (read_all_texts _ _ _ _ Eread) as (ts & -> & Hts).
      rewrite Hop. split; [exact Hts|].
      destruct (encoder s ([] ++ ts) (model_batch_size s)) as [embs|e'].
      - right. exists embs. split; [reflexivity|]. apply Hcase.
      - left. destruct Hcase as (_ & -> & ->). auto. }
    split; [exact Hit|]. split; [exact Hval|]. split; [exact Hlast'|]. split; [exact Hdb|].
    intros Hr. destruct (Hok Hr) as (Hlen & ->).
    rewrite Hlen, firstn_all in Hit. repeat split; auto; discriminate.
  - destruct Hcase as (-> & -> & -> & ->).
    split; [left; auto|]. split; [reflexivity|]. split; [constructor|].
    split; [left; reflexivity|]. split; [exact Hdb|]. discriminate.
Qed.

(** C10.  When every file of the batch was read and the encoder returns a
    sequence of embeddings whose length is not the number of texts, the
    ingest raises.  Before it does, the storing loop has written records
    only for a prefix of the zipped pairs: no more of them than the shorter
    of the two sequences has elements, each item with the embedding at its
    own position. *)
Theorem encoder_length_mismatch_raises (items : list (string * Path))
    (s : Indexer.t Emb) (texts : list string) (embs : list Emb) :
  read_all (fs s) (map snd items) [] = Ok texts ->
  encoder s texts (model_batch_size s) = Ok embs ->
  length embs <> length texts ->
  exists e s' (stored : list Stored) (last : list (Event Emb)),
    _do_ingest_paths items s = (Raise e, s') /\
    trace s' = trace s ++ map EvOpen (map snd items)
                 ++ [EvEncode texts (model_batch_size s)]
                 ++ flat_map st_events stored ++ last /\
    Forall (fun ev => is_store ev = false) last /\
    map st_item stored = take (length stored) items /\
    map st_emb stored = take (length stored) embs /\
    length stored <= length items `min` length embs /\
    count_events is_store (trace s') <=
      count_events is_store (trace s) + length items `min` length embs /\
    database s' = foldl st_write (database s) stored.
Proof.
  intros Hread Henc Hne.
  destruct (_do_ingest_paths items s) as [r s'] eqn:E.
  apply do_ingest_paths_shape in E.
  destruct E as (_ & _ & enc & stored & last & Htr & Hdb & _ & Hit & Hlast & Hok & Hcase).
  rewrite Hread in Hcase. destruct Hcase as (-> & Hcase).
  rewrite Henc in Hcase. destruct Hcase as (Hemb & Hlen).
  assert (Hop : opened (fs s) (map snd items) = map snd items)
    by (eapply read_all_opened; rewrite Hread; reflexivity).
  rewrite Hop in Htr.
  pose proof (read_all_length _ _ _ _ Hread) as Htl.
  rewrite length_map in Htl. cbn in Htl.
  destruct r as [u|e]; [exfalso; apply Hne; rewrite (Hlen eq_refl); lia|].
  assert (Hl : Forall (fun ev : Event Emb => is_store ev = false) last).
  { destruct Hlast as [->|(x & _ & -> & _)]; repeat constructor. }
  assert (Hle : length stored <= length items `min` length embs).
  { pose proof (stored_length_le _ _ Hit).
    apply (f_equal length) in Hemb. rewrite length_map, length_take in Hemb. lia. }
  exists e, s', stored, last. split; [reflexivity|]. split; [exact Htr|].
  split; [exact Hl|]. split; [exact Hit|]. split; [exact Hemb|]. split; [exact Hle|].
  split; [|exact Hdb].
  rewrite Htr, !count_events_app, count_events_opens by reflexivity.
  rewrite count_stores_stored, (count_events_none _ last Hl).
  rewrite (count_events_none _ [EvEncode _ _])
    by (apply Forall_cons_2; [reflexivity|apply Forall_nil_2]).
  lia.
Qed.

(** *** The plain ingest loop *)

Lemma run_ingestor_empty (fuel : nat) s :
  ingest_queue s = [] -> run_ingestor (S fuel) true s = Returned s.
Proof. intros H. cbn [run_ingestor]. rewrite (bool_decide_eq_true_2 _ H). reflexivity. Qed.

Lemma run_ingestor_step (fuel : nat) (stop_when_done : bool) s :
  ingest_queue s <> [] ->
  run_ingestor (S fuel) stop_when_done s =
  match _do_ingest_batch s with
  | (Ok _, s') => run_ingestor fuel stop_when_done s'
  | (Raise e, s') => Raised e s'
  end.
Proof. intros H. cbn [run_ingestor]. rewrite (bool_decide_eq_false_2 _ H). reflexivity. Qed.

Lemma batch_shrinks s :
  (1 <= ingest_batch_size s)%Z -> ingest_queue s <> [] ->
  length (drop (Z.to_nat (ingest_batch_size s)) (ingest_queue s))
  < length (ingest_queue s).
Proof.
  intros Hbs Hne. rewrite length_drop.
  destruct (ingest_queue s); [contradiction|]. cbn [length]. lia.
Qed.


(** Whenever the one-shot loop returns, the queue is empty and every item
    that was in it has been ingested, in queue order. *)
Lemma one_shot_returned (fuel : nat) s s' :
  run_ingestor fuel true s = Returned s' ->
  ingest_queue s' = [] /\ frame s s' /\
  exists stored : list Stored,
    map st_item stored = ingest_queue s /\
    Forall (st_valid s) stored /\
    database s' = foldl st_write (database s) stored /\
    count_events is_store (trace s') =
      count_events is_store (trace s) + length (ingest_queue s).
Proof.
  revert s. induction fuel as [|fuel IH]; intros s; [discriminate|].
  destruct (decide (ingest_queue s = [])) as [Hnil|Hne].
  - rewrite run_ingestor_empty by exact Hnil. intros [= <-].
    split; [exact Hnil|]. split; [apply frame_refl|].
    exists []. rewrite Hnil. cbn. repeat split; auto.
  - rewrite run_ingestor_step by exact Hne.
    destruct (_do_ingest_batch s) as [[u|e] s1] eqn:E; [|discriminate].
    intros H. apply IH in H. destruct H as (Hq' & Hfr' & rest & Hit' & Hval' & Hdb' & Hcnt').
    apply do_ingest_batch_shape in E. cbn zeta in E.
    set (n := Z.to_nat (ingest_batch_size s)) in *.
    destruct E as (Hfr & Hq & enc & stored & last & Htr & Hdb & Hval & Hit & Hok & Hbad & Hgood & _).
    destruct (Hok eq_refl) as (Hlen & ->).
    rewrite Hlen, firstn_all in Hit.
    split; [exact Hq'|]. split; [eapply frame_trans; eassumption|].
    exists (stored ++ rest).
    split; [rewrite map_app, Hit, Hit', Hq; apply take_drop|].
    split.
    { apply Forall_app. split; [exact Hval|].
      eapply Forall_impl; [exact Hval'|]. intros y. apply st_valid_frame. exact Hfr. }
    split; [rewrite foldl_app, <- Hdb; exact Hdb'|].
    rewrite Hcnt', Htr, Hq, !count_events_app, count_events_opens by reflexivity.
    rewrite count_stores_stored.
    change (count_events is_store (@nil (Event Emb))) with 0.
    assert (Henc : count_events is_store enc = 0).
    { destruct (is_ok (read_all (fs s) (map snd (take n (ingest_queue s))) [])) eqn:Er.
      - destruct (Hgood eq_refl) as (texts & ->). reflexivity.
      - destruct (Hbad eq_refl) as (? & _). discriminate. }
    rewrite Henc.
    apply (f_equal length) in Hit. rewrite length_map in Hit.
    rewrite Hit, length_drop, length_take. lia.
Qed.

(** Items that cannot fail, and an encoder that keeps its contract: the
    one-shot loop returns. *)
Lemma one_shot_returns (n : nat) s :
  (1 <= ingest_batch_size s)%Z -> length (ingest_queue s) <= n ->
  encoder_contract (encoder s) -> Forall (ingestible s) (ingest_queue s) ->
  exists s', forall fuel, n < fuel -> run_ingestor fuel true s = Returned s'.
Proof.
  revert s. induction n as [|n IH]; intros s Hbs Hlen Henc Hall.
  - exists s. intros [|fuel] Hfuel; [lia|]. apply run_ingestor_empty.
    destruct (ingest_queue s); [reflexivity|cbn in Hlen; lia].
  - destruct (decide (ingest_queue s = [])) as [Hnil|Hne].
    { exists s. intros [|fuel] Hfuel; [lia|]. apply run_ingestor_empty. exact Hnil. }
    destruct (do_ingest_batch_ok s Henc Hall) as (s1 & texts & stored & E & Hfr & Hq & _).
    destruct (IH s1) as (s' & Hs').
    + destruct Hfr as (_ & _ & _ & -> & _). exact Hbs.
    + rewrite Hq. pose proof (batch_shrinks s Hbs Hne). lia.
    + destruct Hfr as (_ & _ & -> & _). exact Henc.
    + rewrite Hq. apply Forall_drop.
      eapply Forall_impl; [exact Hall|]. intros y. apply ingestible_frame. exact Hfr.
    + exists s'. intros [|fuel] Hfuel; [lia|].
      rewrite run_ingestor_step, E by exact Hne. apply Hs'. lia.
Qed.



(** *** Enqueueing *)

Lemma enqueue_path_spec (v : string) (p : Path) s :
  let s' := enqueue_path_for_ingestion v p s in
  frame s s' /\ database s' = database s /\ trace s' = trace s /\
  ingest_queue s' = ingest_queue s ++ (if is_file (fs s) p then [(v, p)] else []).
Proof.
  unfold enqueue_path_for_ingestion. destruct (is_file (fs s) p); cbn.
  - repeat split.
  - rewrite app_nil_r. repeat split.
Qed.

Lemma enqueue_found_fold (v : string) (paths : list Path) s :
  let s' := foldl (enqueue_found v) s paths in
  frame s s' /\ database s' = database s /\ trace s' = trace s /\
  ingest_queue s' =
    ingest_queue s
    ++ map (fun p => (v, p)) (filter (fun p => is_file (fs s) p = true) paths).
Proof.
  revert s. induction paths as [|p paths IH]; intros s.
  - cbn. rewrite app_nil_r. repeat split.
  - cbn [foldl]. set (s1 := enqueue_found v s p).
    destruct (IH s1) as (Hfr & Hdb & Htr & Hq).
    destruct (enqueue_path_spec v p (logger INFO "Found note: %s" [ArgPath p] s))
      as (Hfr1 & Hdb1 & Htr1 & Hq1).
    fold (enqueue_found v s p) in Hfr1, Hdb1, Htr1, Hq1. fold s1 in Hfr1, Hdb1, Htr1, Hq1.
    cbn [fs database trace ingest_queue logger] in Hdb1, Htr1, Hq1.
    assert (Hfr01 : frame s s1).
    { destruct Hfr1 as (?&?&?&?&?&?). repeat split; assumption. }
    cbn zeta. split; [eapply frame_trans; eassumption|].
    split; [congruence|]. split; [congruence|].
    rewrite Hq, Hq1. replace (fs s1) with (fs s) by (symmetry; apply Hfr01).
    rewrite <- app_assoc. f_equal.
    destruct (is_file (fs s) p) eqn:Ep.
    + rewrite filter_cons_True by exact Ep. reflexivity.
    + rewrite filter_cons_False by congruence. reflexivity.
Qed.

Lemma enqueue_vault_spec (v : string * Path) s :
  let s' := enqueue_vault s v in
  frame s s' /\ database s' = database s /\ trace s' = trace s /\
  ingest_queue s' =
    ingest_queue s ++ map (fun p => (v.1, p)) (note_files (fs s) v.2).
Proof.
  destruct v as [v root]. unfold enqueue_vault.
  set (s0 := logger INFO _ _ s).
  destruct (enqueue_found_fold v (rglob_md (fs s) root) s0) as (Hfr & Hdb & Htr & Hq).
  cbn zeta. split; [|split; [|split]].
  - destruct Hfr as (?&?&?&?&?&?). repeat split; assumption.
  - exact Hdb.
  - exact Htr.
  - exact Hq.
Qed.

Lemma enqueue_vaults_fold (vs : list (string * Path)) s :
  let s' := foldl enqueue_vault s vs in
  frame s s' /\ database s' = database s /\ trace s' = trace s /\
  ingest_queue s' = ingest_queue s ++ scan_items (fs s) vs.
Proof.
  revert s. induction vs as [|v vs IH]; intros s.
  - cbn. rewrite app_nil_r. repeat split.
  - cbn [foldl]. destruct (enqueue_vault_spec v s) as (Hfr1 & Hdb1 & Htr1 & Hq1).
    destruct (IH (enqueue_vault s v)) as (Hfr & Hdb & Htr & Hq).
    cbn zeta. split; [eapply frame_trans; eassumption|].
    split; [congruence|]. split; [congruence|].
    rewrite Hq, Hq1. replace (fs (enqueue_vault s v)) with (fs s) by (symmetry; apply Hfr1).
    unfold scan_items. cbn [flat_map]. rewrite <- app_assoc. reflexivity.
Qed.

Lemma enqueue_all_spec s :
  let s' := enqueue_all_note_paths_for_ingestion s in
  frame s s' /\ database s' = database s /\ trace s' = trace s /\
  ingest_queue s' = ingest_queue s ++ scan_items (fs s) (vaults s).
Proof.
  unfold enqueue_all_note_paths_for_ingestion.
  set (s0 := logger INFO _ _ s).
  destruct (enqueue_vaults_fold (vaults s) s0) as (Hfr & Hdb & Htr & Hq).
  cbn zeta. split; [|split; [|split]]; assumption.
Qed.

(** The scan enqueues the pairs of [find_all_note_paths] that are regular
    files, in the generator's order. *)
Lemma scan_items_find_all s :
  scan_items (fs s) (vaults s) =
  filter (fun it : string * Path => is_file (fs s) it.2 = true)
         (find_all_note_paths s).
Proof.
  unfold scan_items, find_all_note_paths.
  induction (vaults s) as [|[v root] vs IH]; [reflexivity|].
  cbn [flat_map fst snd]. rewrite filter_app, <- IH. f_equal.
  unfold note_files. induction (rglob_md (fs s) root) as [|p ps IHp]; [reflexivity|].
  cbn [map]. destruct (is_file (fs s) p) eqn:Ep.
  - rewrite !filter_cons_True by exact Ep. cbn [map]. f_equal. exact IHp.
  - rewrite !filter_cons_False by (cbn; congruence). exact IHp.
Qed.

(** *** The items of a scan *)

Lemma note_files_elem (disk : FS) (root p : Path) :
  p ∈ note_files disk root <-> is_file disk p = true /\ rglob_hit disk root p = true.
Proof.
  unfold note_files. rewrite list_elem_of_filter, rglob_md_elem.
  split; [tauto|]. intros [Hf Hh]. repeat split; auto.
  unfold is_file in Hf. destruct (disk !! p); [eauto|discriminate].
Qed.

Lemma note_files_NoDup (disk : FS) (root : Path) : NoDup (note_files disk root).
Proof. apply NoDup_filter, rglob_md_NoDup. Qed.

Lemma scan_items_elem (disk : FS) (vs : list (string * Path)) (v : string) (p : Path) :
  (v, p) ∈ scan_items disk vs <->
  exists root, (v, root) ∈ vs /\ p ∈ note_files disk root.
Proof.
  unfold scan_items. rewrite list_elem_of_In, in_flat_map. split.
  - intros ([v' root] & Hin & Hp). apply list_elem_of_In, list_elem_of_fmap in Hp.
    destruct Hp as (q & [= -> ->] & Hq). exists root. split; [|exact Hq].
    apply list_elem_of_In. exact Hin.
  - intros (root & Hin & Hp). exists (v, root). split; [apply list_elem_of_In; exact Hin|].
    apply list_elem_of_In, list_elem_of_fmap. exists p. auto.
Qed.

Lemma scan_items_NoDup (disk : FS) (vs : list (string * Path)) :
  NoDup (map fst vs) -> NoDup (scan_items disk vs).
Proof.
  induction vs as [|[v root] vs IH]; intros Hnd; [constructor|].
  apply NoDup_cons in Hnd as [Hv Hnd].
  change (scan_items disk ((v, root) :: vs))
    with (map (fun p => (v, p)) (note_files disk root) ++ scan_items disk vs).
  apply NoDup_app. split; [|split].
  - apply NoDup_fmap_2; [intros p q [= ->]; reflexivity|apply note_files_NoDup].
  - intros [v' p] H1 H2. apply list_elem_of_fmap in H1 as (q & [= -> ->] & _).
    apply scan_items_elem in H2 as (root' & Hin & _).
    apply Hv. apply list_elem_of_fmap. exists (v, root'). auto.
  - apply IH. exact Hnd.
Qed.

Lemma scan_items_length (disk : FS) (vs : list (string * Path)) :
  length (scan_items disk vs) =
  sum_list (map (fun v => length (note_files disk v.2)) vs).
Proof.
  induction vs as [|v vs IH]; [reflexivity|].
  change (scan_items disk (v :: vs))
    with (map (fun p => (v.1, p)) (note_files disk v.2) ++ scan_items disk vs).
  rewrite length_app, length_map, IH. reflexivity.
Qed.

Lemma dict_get_NoDup {V} (d : list (string * V)) (k : string) (v : V) :
  NoDup (map fst d) -> (k, v) ∈ d -> dict_get d k = Ok v.
Proof.
  induction d as [|[k' v'] d IH]; intros Hnd Hin; [inversion Hin|].
  apply NoDup_cons in Hnd as [Hk Hnd]. cbn.
  apply elem_of_cons in Hin as [[= <- <-]|Hin].
  - destruct (decide (k = k)); [reflexivity|contradiction].
  - destruct (decide (k' = k)) as [->|Hne]; [|apply IH; assumption].
    exfalso. apply Hk. apply list_elem_of_fmap. exists (k, v). auto.
Qed.

Lemma once_in_NoDup {A} `{EqDecision A} (l : list A) (x : A) :
  NoDup l -> x ∈ l -> length (filter (fun y => y = x) l) = 1.
Proof.
  induction 1 as [|y l Hy Hnd IH]; intros Hin; [inversion Hin|].
  destruct (decide (y = x)) as [->|Hne].
  - rewrite filter_cons_True by reflexivity. cbn [length]. f_equal.
    destruct (filter (fun y => y = x) l) as [|z zs] eqn:E; [reflexivity|].
    assert (Hz : z ∈ filter (fun y => y = x) l) by (rewrite E; left).
    apply list_elem_of_filter in Hz as [-> Hz]. contradiction.
  - rewrite filter_cons_False by exact Hne.
    apply IH. apply elem_of_cons in Hin as [->|Hin]; [contradiction|exact Hin].
Qed.

(** *** Construction *)

Lemma init_fields (disk : FS) (db : Database.t Emb) (vs : list (string * Path))
    (enc : list string -> Z -> Result (list Emb)) (watch : bool) (bs mbs : Z) :
  let s := __init__ disk db vs enc watch bs mbs in
  fs s = disk /\ vaults s = vs /\ encoder s = enc /\ ingest_batch_size s = bs /\
  model_batch_size s = mbs /\ database s = db /\ trace s = [] /\
  ingest_queue s = if (Database.num_notes db =? 0)%Z then scan_items disk vs else [].
Proof.
  unfold __init__. cbn [database].
  destruct (Database.num_notes db =? 0)%Z.
  - match goal with |- context [enqueue_all_note_paths_for_ingestion ?s0] =>
      destruct (enqueue_all_spec s0) as ((?&?&?&?&?&?) & ? & ? & ?) end.
    cbn zeta. repeat split; assumption.
  - cbn. repeat split.
Qed.

(** C3.  The constructor scans the vaults exactly when the database holds no
    note.  Then every regular file named [*.md] that the recursive walk
    reaches below a vault's root is in the queue exactly once, with that
    vault's name, and nothing else is; the queue has as many items as the
    vaults have such files.  With three vaults holding 5, 0 and 2 such files
    that is 7 items, and one [_do_ingest_batch] with a batch size of at
    least 7, files that can be read and an encoder that keeps its contract
    empties the queue with exactly 7 store writes.  When the database holds
    a note, the constructor scans nothing and enqueues nothing. *)
Theorem cold_bootstrap (disk : FS) (db : Database.t Emb)
    (vs : list (string * Path))
    (enc : list string -> Z -> Result (list Emb)) (watch : bool) (bs mbs : Z) :
  NoDup (map fst vs) ->
  let s := __init__ disk db vs enc watch bs mbs in
  (Database.num_notes db <> 0%Z ->
     ingest_queue s = [] /\ trace s = [] /\ log s = []) /\
  (Database.num_notes db = 0%Z ->
     (forall v root p,
        (v, root) ∈ vs -> is_file disk p = true -> rglob_hit disk root p = true ->
        length (filter (fun it => it = (v, p)) (ingest_queue s)) = 1) /\
     (forall v p,
        (v, p) ∈ ingest_queue s ->
        exists root, (v, root) ∈ vs /\ is_file disk p = true /\
                     rglob_hit disk root p = true) /\
     length (ingest_queue s) =
       sum_list (map (fun v => length (note_files disk v.2)) vs) /\
     (forall v1 r1 v2 r2 v3 r3,
        vs = [(v1, r1); (v2, r2); (v3, r3)] ->
        length (note_files disk r1) = 5 ->
        length (note_files disk r2) = 0 ->
        length (note_files disk r3) = 2 ->
        length (ingest_queue s) = 7 /\
        ((7 <= bs)%Z -> encoder_contract enc ->
         Forall (fun it => is_ok (read_text disk it.2) = true) (ingest_queue s) ->
         exists s',
           _do_ingest_batch s = (Ok tt, s') /\ ingest_queue s' = [] /\
           count_events is_store (trace s') = 7))).
Proof.
  intros Hnd s.
  destruct (init_fields disk db vs enc watch bs mbs)
    as (Hfs & Hvs & Henc & Hbs & Hmbs & Hdb & Htr & Hq).
  fold s in Hfs, Hvs, Henc, Hbs, Hmbs, Hdb, Htr, Hq.
  split.
  - intros Hne. subst s. unfold __init__. cbn [database].
    destruct (Z.eqb_spec (Database.num_notes db) 0) as [|_]; [contradiction|].
    cbn. auto.
  - intros Hz. rewrite Hz in Hq. cbn in Hq.
    assert (Hlen : length (ingest_queue s) =
                   sum_list (map (fun v => length (note_files disk v.2)) vs))
      by (rewrite Hq; apply scan_items_length).
    split; [|split; [|split; [exact Hlen|]]].
    + intros v root p Hin Hf Hh. rewrite Hq.
      apply once_in_NoDup; [apply scan_items_NoDup; exact Hnd|].
      apply scan_items_elem. exists root. split; [exact Hin|].
      apply note_files_elem. auto.
    + intros v p. rewrite Hq, scan_items_elem.
      intros (root & Hin & Hp). apply note_files_elem in Hp. eauto.
    + intros v1 r1 v2 r2 v3 r3 Hvs3 H1 H2 H3.
      assert (H7 : length (ingest_queue s) = 7).
      { rewrite Hlen, Hvs3. cbn -[note_files]. rewrite H1, H2, H3. reflexivity. }
      split; [exact H7|].
      intros Hbs7 Hcontract Hreadable.
      destruct (do_ingest_batch_ok s) as (s' & texts & stored & E & _ & Hq' & Htr' & _ & _ & Hit).
      { rewrite Henc. exact Hcontract. }
      { apply Forall_forall. intros [v p] Hin. split.
        - rewrite Hfs. exact (proj1 (Forall_forall _ _) Hreadable _ Hin).
        - rewrite Hq in Hin. apply scan_items_elem in Hin as (root & Hroot & Hp).
          pose proof (dict_get_NoDup _ _ _ Hnd Hroot) as Hget.
          apply list_elem_of_filter in Hp as [_ Hp]. apply rglob_md_relative in Hp.
          destruct (relative_to p root) as [rel|] eqn:Erel; [|discriminate].
          exists root, rel. rewrite Hvs. auto. }
      rewrite Hbs in Hq', Hit.
      rewrite take_ge in Hit by lia. rewrite drop_ge in Hq' by lia.
      exists s'. split; [exact E|]. split; [exact Hq'|].
      rewrite Htr', Htr, !count_events_app, count_events_opens by reflexivity.
      rewrite count_stores_stored.
      apply (f_equal length) in Hit. rewrite length_map in Hit.
      rewrite (count_events_none _ [EvEncode _ _])
        by (apply Forall_cons_2; [reflexivity|apply Forall_nil_2]).
      change (count_events is_store (@nil (Event Emb))) with 0. lia.
Qed.

(** *** The watcher callbacks *)




(** *** The loop from the command line *)


End WithEmbedding.

End IndexerProps.

(** ** The control loop of worker.py *)

Module WorkerProps.

Import Worker.

Section WithEmbedding.

Context {Emb : Type}.

Variable search : string -> Worker.t Emb -> list Path.
Variable ingest_paths : list (string * Path) -> Worker.t Emb -> Result unit * Worker.t Emb.

Lemma get_batch_take (n : nat) (queue : list IndexMessage) :
  get_batch n queue [] =
  (map (fun m => (vault_name m, path m)) (take n queue), drop n queue).
Proof.
  assert (H : forall batch,
            get_batch n queue batch =
            (batch ++ map (fun m => (vault_name m, path m)) (take n queue),
             drop n queue)).
  { revert queue. induction n as [|n IH]; intros [|m queue] batch; cbn;
      rewrite ?app_nil_r; try reflexivity.
    rewrite IH, <- app_assoc. reflexivity. }
  apply H.
Qed.

Lemma default_work_unfold (s : Worker.t Emb) :
  default_work ingest_paths s =
  ingest_paths
    (map (fun m => (vault_name m, path m))
         (take (Z.to_nat (ingest_batch_size s)) (ingest_queue s)))
    (set_queue (drop (Z.to_nat (ingest_batch_size s)) (ingest_queue s)) s).
Proof. unfold default_work. rewrite get_batch_take. reflexivity. Qed.

(** C2.  One pass of the control loop, when shutdown is not requested.  It
    services at most one request and ingests at most one batch, never both.
    With a request pending it services the request: it runs the search,
    puts the response in the slot and clears the request, and touches
    neither the queue nor the database, also when ingestion work is waiting;
    that work is taken up by the next pass.  With no request pending and a
    queue that is not empty it ingests one batch, the first
    [ingest_batch_size] messages of the queue.  So a pass that was woken by
    a request or by ingestion work does exactly one of the two. *)
Theorem request_first_one_per_wake (s : Worker.t Emb) :
  shutdown_requested s = false ->
  let w := (control_loop_body search ingest_paths s).1 in
  let s' := (control_loop_body search ingest_paths s).2 in
  requests_serviced w + batches_ingested w <= 1 /\
  (forall message, request_slot s = Some message ->
     w = ServicedRequest {| paths := search (query message) s |} /\
     requests_serviced w = 1 /\ batches_ingested w = 0 /\
     ingest_queue s' = ingest_queue s /\ database s' = database s /\
     trace s' = trace s ++ [EvSearch (query message)] /\
     request_slot s' = None /\
     response_slot s' = Some {| paths := search (query message) s |} /\
     shutdown_requested s' = false /\
     (ingest_queue s <> [] ->
      batches_ingested (control_loop_body search ingest_paths s').1 = 1)) /\
  (request_slot s = None -> ingest_queue s <> [] ->
     requests_serviced w = 0 /\ batches_ingested w = 1 /\
     w = IngestedBatch (default_work ingest_paths s).1 /\
     s' = (default_work ingest_paths s).2 /\
     default_work ingest_paths s =
       ingest_paths
         (map (fun m => (vault_name m, path m))
              (take (Z.to_nat (ingest_batch_size s)) (ingest_queue s)))
         (set_queue (drop (Z.to_nat (ingest_batch_size s)) (ingest_queue s)) s)) /\
  (request_slot s <> None \/ ingest_queue s <> [] ->
     requests_serviced w + batches_ingested w = 1).
Proof.
  intros Hrun w s'. subst w s'. unfold control_loop_body. rewrite Hrun.
  destruct (request_slot s) as [message|] eqn:Ereq.
  - cbn [process_message fst snd requests_serviced batches_ingested].
    split; [lia|]. split; [|split; [discriminate|reflexivity]].
    intros m [= <-]. repeat (split; [reflexivity|]).
    split; [exact Hrun|].
    intros Hne. cbn [shutdown_requested request_slot respond emit].
    rewrite Hrun. unfold default_work_available.
    cbn [ingest_queue respond emit].
    rewrite (bool_decide_eq_false_2 _ Hne). cbn [negb].
    destruct (default_work _ _) as [r s2]. reflexivity.
  - unfold default_work_available.
    destruct (decide (ingest_queue s = [])) as [Hnil|Hne].
    + rewrite (bool_decide_eq_true_2 _ Hnil). cbn.
      split; [lia|]. split; [discriminate|]. split; [contradiction|].
      intros [H|H]; contradiction.
    + rewrite (bool_decide_eq_false_2 _ Hne). cbn [negb].
      pose proof (default_work_unfold s) as Hdw.
      destruct (default_work ingest_paths s) as [r s2].
      cbn [fst snd requests_serviced batches_ingested].
      split; [lia|]. split; [discriminate|]. split; [|reflexivity].
      intros _ _. repeat split. exact Hdw.
Qed.

End WithEmbedding.

End WorkerProps.

(** ** Delete and move notifications *)

Module WatcherProps.

Section WithEmbedding.

Context {Emb : Type}.

Lemma indexer_logged (lv : LogLevel) (f : string) (a : list LogArg)
    (s : Indexer.t Emb) :
  indexer_same_but_log s (Indexer.logger lv f a s).
Proof. repeat split. Qed.

Lemma worker_logged (lv : LogLevel) (f : string) (a : list LogArg)
    (s : Worker.t Emb) :
  worker_same_but_log s (Worker.logger lv f a s).
Proof. repeat split. Qed.

(** C5.  A delete or move notification, in indexer.py and in worker.py
    alike, changes nothing but the log, which gains at most one warning:
    the database, the queue and the trace of effects (hence the store) are
    as before. *)
Theorem delete_move_log_only (hi : Indexer._FSEventHandler)
    (hw : Worker._FSEventHandler) (event : FileSystemEvent)
    (si : Indexer.t Emb) (sw : Worker.t Emb) :
  (indexer_same_but_log si (Indexer.on_deleted hi event si) /\
   at_most_one_warning (Indexer.log si) (Indexer.log (Indexer.on_deleted hi event si))) /\
  (indexer_same_but_log si (Indexer.on_moved hi event si) /\
   at_most_one_warning (Indexer.log si) (Indexer.log (Indexer.on_moved hi event si))) /\
  (worker_same_but_log sw (Worker.on_deleted hw event sw) /\
   at_most_one_warning (Worker.log sw) (Worker.log (Worker.on_deleted hw event sw))) /\
  (worker_same_but_log sw (Worker.on_moved hw event sw) /\
   at_most_one_warning (Worker.log sw) (Worker.log (Worker.on_moved hw event sw))).
Proof.
  unfold Indexer.on_deleted, Indexer.on_moved, Worker.on_deleted, Worker.on_moved.
  destruct (negb (is_directory event)).
  2:{ repeat split; left; reflexivity. }
  repeat split;
    match goal with
    | |- context [if ?c then _ else _] => destruct c
    end;
    first [ apply indexer_logged | apply worker_logged
          | left; reflexivity
          | right; eexists; split; [reflexivity|reflexivity]
          | repeat split ].
Qed.

End WithEmbedding.

End WatcherProps.

(** ** The tool handler of mcp_server.py *)

Module McpProps.

Import Indexer Spec McpServer.

Section WithEmbedding.

Context {Emb : Type}.

Variable search : Database.t Emb -> string -> list Path.





End WithEmbedding.


End McpProps.

(** ** The statements at work on the small installation *)

Module Witnesses.

Import Indexer Spec.

Lemma encoder_keeps_contract : encoder_contract Example.encoder.
Proof.
  intros texts n. exists (map String.length texts).
  split; [reflexivity|apply length_map].
Defined.



(** C1 at batch size 2 on the queue [a.md; b.md; a.md] of the vault. *)
Lemma drain_batch_fifo_witness :
  (1 <= 2)%Z /\
  collect_batch 2 [Example.a_md; Example.b_md; Example.a_md] []
    = ([Example.a_md; Example.b_md], [Example.a_md]) /\
  exists s1 s2,
    _do_ingest_batch
      (Example.indexer Example.encoder
         [Example.a_md; Example.b_md; Example.a_md] 2) = (Ok tt, s1) /\
    _do_ingest_batch s1 = (Ok tt, s2) /\
    ingest_queue s2 = [] /\
    count_events (is_store_for "vault" ["a.md"]) (trace s2) = 2.
Proof.
  assert (H : (1 <= 2)%Z) by (intros E; discriminate E).
  split; [exact H|].
  destruct (IndexerProps.drain_batch_fifo (Emb:=nat) 2 [] [] H) as (_ & _ & _ & Hs).
  destruct (Hs (Example.indexer Example.encoder
                  [Example.a_md; Example.b_md; Example.a_md] 2)
               "vault" ["vault"] eq_refl eq_refl eq_refl eq_refl eq_refl
               encoder_keeps_contract)
    as (Hc & s1 & s2 & E1 & _ & _ & E2 & Hq & Hn).
  split; [exact Hc|]. exists s1, s2. auto.
Defined.

(** C2 with a request pending and a message in the queue. *)
Lemma request_first_one_per_wake_witness :
  Worker.shutdown_requested
    (Example.worker [Example.a_message] (Some {| Worker.query := "haskell" |}))
  = false /\
  let step :=
    Worker.control_loop_body Example.worker_search Example.worker_ingest
      (Example.worker [Example.a_message] (Some {| Worker.query := "haskell" |})) in
  Worker.requests_serviced step.1 = 1 /\
  Worker.batches_ingested step.1 = 0 /\
  Worker.ingest_queue step.2 = [Example.a_message] /\
  Worker.batches_ingested
    (Worker.control_loop_body Example.worker_search Example.worker_ingest step.2).1 = 1.
Proof.
  split; [reflexivity|].
  destruct (WorkerProps.request_first_one_per_wake
              Example.worker_search Example.worker_ingest
              (Example.worker [Example.a_message] (Some {| Worker.query := "haskell" |}))
              eq_refl) as (_ & Hreq & _).
  destruct (Hreq _ eq_refl) as (_ & H1 & H2 & Hq & _ & _ & _ & _ & _ & Hnext).
  cbn zeta. split; [exact H1|]. split; [exact H2|]. split; [exact Hq|].
  apply Hnext. discriminate.
Defined.

(** C3 on three vaults with 5, 0 and 2 notes. *)
Lemma cold_bootstrap_witness :
  NoDup (map fst Example.vaults3) /\
  length (ingest_queue
            (__init__ Example.disk3 ∅ Example.vaults3 Example.encoder false 32 16)) = 7 /\
  exists s',
    _do_ingest_batch
      (__init__ Example.disk3 ∅ Example.vaults3 Example.encoder false 32 16)
    = (Ok tt, s') /\
    ingest_queue s' = [] /\ count_events is_store (trace s') = 7.
Proof.
  assert (Hnd : NoDup (map fst Example.vaults3))
    by (apply (bool_decide_unpack _); vm_compute; exact I).
  split; [exact Hnd|].
  destruct (IndexerProps.cold_bootstrap Example.disk3 (∅ : Database.t nat)
              Example.vaults3 Example.encoder false 32 16 Hnd) as (_ & Hcold).
  destruct (Hcold eq_refl) as (_ & _ & _ & H3).
  destruct (H3 "one" ["one"] "two" ["two"] "three" ["three"] eq_refl) as (H7 & Hing).
  - vm_compute. reflexivity.
  - vm_compute. reflexivity.
  - vm_compute. reflexivity.
  - split; [exact H7|]. apply Hing.
    + intros E. discriminate E.
    + exact encoder_keeps_contract.
    + apply (bool_decide_unpack _). vm_compute. exact I.
Defined.

(** C4 on a batch whose second file cannot be read. *)
Lemma read_error_aborts_batch_witness :
  Exists (fun item : string * Path => is_ok (read_text Example.disk item.2) = false)
         [Example.a_md; Example.c_md] /\
  exists e s',
    _do_ingest_batch
      (Example.indexer Example.encoder [Example.a_md; Example.c_md; Example.b_md] 2)
    = (Raise e, s') /\
    count_events is_encode (trace s') = 0 /\
    count_events is_store (trace s') = 0 /\
    database s' = ∅ /\
    ingest_queue s' = [Example.b_md].
Proof.
  assert (Hex : Exists (fun item : string * Path =>
                          is_ok (read_text Example.disk item.2) = false)
                       [Example.a_md; Example.c_md])
    by (apply Exists_cons_tl, Exists_cons_hd; reflexivity).
  split; [exact Hex|].
  destruct (IndexerProps.read_error_aborts_batch
              [Example.a_md; Example.c_md]
              (Example.indexer Example.encoder
                 [Example.a_md; Example.c_md; Example.b_md] 2) Hex)
    as (_ & Hbatch).
  destruct (Hbatch eq_refl) as (e & s' & E & Hc1 & Hc2 & Hdb & Hq & _).
  exists e, s'. auto.
Defined.


(** C10 on two notes and an encoder that returns one embedding. *)
Lemma encoder_length_mismatch_witness :
  read_all Example.disk (map snd [Example.a_md; Example.b_md]) []
    = Ok ["alpha"; "beta"] /\
  Example.short_encoder ["alpha"; "beta"] 16 = Ok [4] /\
  length [4] <> length ["alpha"; "beta"] /\
  exists e s',
    _do_ingest_paths [Example.a_md; Example.b_md]
      (Example.indexer Example.short_encoder [] 2) = (Raise e, s') /\
    count_events is_store (trace s') <= 1.
Proof.
  assert (H1 : read_all Example.disk (map snd [Example.a_md; Example.b_md]) []
               = Ok ["alpha"; "beta"]) by reflexivity.
  assert (H2 : Example.short_encoder ["alpha"; "beta"] 16 = Ok [4]) by reflexivity.
  assert (H3 : length [4] <> length ["alpha"; "beta"]) by (intros E; discriminate E).
  split; [exact H1|]. split; [exact H2|]. split; [exact H3|].
  destruct (IndexerProps.encoder_length_mismatch_raises
              [Example.a_md; Example.b_md]
              (Example.indexer Example.short_encoder [] 2)
              ["alpha"; "beta"] [4] H1 H2 H3)
    as (e & s' & stored & last & E & _ & _ & _ & _ & _ & Hn & _).
  exists e, s'. split; [exact E|exact Hn].
Defined.

(** The scan of worker.py enqueues what [rglob] yields as it is: on the
    small installation the directory [dir.md] enters the worker's queue,
    and does not enter the indexer's. *)
Lemma worker_scan_enqueues_directory :
  {| Worker.vault_name := "vault"; Worker.path := ["vault"; "dir.md"] |}
    ∈ Worker.ingest_queue (Worker.enqueue_all_vaults (Example.worker [] None)) /\
  is_file Example.disk ["vault"; "dir.md"] = false /\
  Forall (fun it => md_file Example.disk it = true)
    (ingest_queue
       (__init__ Example.disk ∅ [("vault", ["vault"])] Example.encoder false 32 16)).
Proof.
  split; [|split].
  - vm_compute.
    repeat first [apply list_elem_of_here | apply list_elem_of_further].
  - reflexivity.
  - apply (bool_decide_unpack _). vm_compute. exact I.
Qed.

End Witnesses.

(** * Further properties *)

(** ** More on the ingest of indexer.py *)

Module IndexerMore.

Import Indexer Spec PathlibProps IndexerProps.

Section WithEmbedding.

Context {Emb : Type}.

Implicit Types (s : Indexer.t Emb) (items : list (string * Path)).

Lemma ingestible_split s (item : string * Path) :
  ingestible s item <->
  is_ok (read_text (fs s) item.2) = true /\ storable s item.
Proof. reflexivity. Qed.

Lemma read_all_readable (disk : FS) (paths : list Path) (acc : list string) :
  is_ok (read_all disk paths acc) = true ->
  Forall (fun p => is_ok (read_text disk p) = true) paths.
Proof.
  revert acc. induction paths as [|p paths IH]; intros acc; cbn; [constructor|].
  destruct (read_text disk p) eqn:E; [|discriminate].
  intros H. constructor; [rewrite E; reflexivity|eauto].
Qed.

(** The ingest with the texts and the embeddings at hand. *)
Lemma do_ingest_paths_with items s (texts : list string) (embs : list Emb) :
  read_all (fs s) (map snd items) [] = Ok texts ->
  encoder s texts (model_batch_size s) = Ok embs ->
  Forall (storable s) items -> length embs = length items ->
  is_ok (_do_ingest_paths items s).1 = true.
Proof.
  intros Hread Henc Hst Hlen. unfold _do_ingest_paths.
  unfold bind at 1, modify. unfold bind at 1.
  set (s0 := logger _ _ _ (logger _ _ _ s)).
  unfold bind at 1. rewrite load_texts_spec. change (fs s0) with (fs s).
  destruct (emits_fields (map EvOpen (opened (fs s) (map snd items))) s0)
    as (Hfr0 & _).
  set (s1 := emits _ s0) in *. rewrite Hread.
  unfold bind at 1. unfold bind at 1, encode_documents.
  destruct Hfr0 as (Hfs0 & Hv0 & Henc0 & Hbs0 & Hmbs0 & Hw0).
  change (encoder s0) with (encoder s) in Henc0.
  change (model_batch_size s0) with (model_batch_size s) in Hmbs0.
  change (fs s0) with (fs s) in Hfs0. change (vaults s0) with (vaults s) in Hv0.
  cbn [logger encoder model_batch_size].
  rewrite Henc0, Hmbs0, Henc.
  unfold bind at 1.
  apply store_embeddings_ok; [|exact Hlen].
  assert (Hrd : Forall (fun p => is_ok (read_text (fs s) p) = true) (map snd items))
    by (eapply read_all_readable; rewrite Hread; reflexivity).
  apply Forall_fmap in Hrd.
  apply Forall_forall. intros it Hin. split.
  - cbn [fs logger emit]. rewrite Hfs0.
    exact (proj1 (Forall_forall _ _) Hrd _ Hin).
  - destruct (proj1 (Forall_forall _ _) Hst _ Hin) as (root & rel & H1 & H2).
    exists root, rel. cbn [vaults logger emit]. rewrite Hv0. auto.
Qed.

(** X1.  An ingest succeeds exactly when every file of the batch can be read,
    every item's vault is configured with the item's path under its root,
    and the encoder returns as many embeddings as it was given texts. *)
Theorem ingest_succeeds_iff items s :
  is_ok (_do_ingest_paths items s).1 = true <->
  Forall (fun it : string * Path => is_ok (read_text (fs s) it.2) = true) items /\
  Forall (storable s) items /\
  exists texts embs,
    read_all (fs s) (map snd items) [] = Ok texts /\
    encoder s texts (model_batch_size s) = Ok embs /\
    length embs = length items.
Proof.
  split.
  - destruct (_do_ingest_paths items s) as [r s'] eqn:E. cbn [fst]. intros Hr.
    apply do_ingest_paths_shape in E.
    destruct E as (_ & _ & enc & stored & last & _ & _ & Hval & Hit & _ & Hok & Hcase).
    destruct (Hok Hr) as (Hlen & _). rewrite Hlen, firstn_all in Hit.
    destruct (read_all (fs s) (map snd items) []) as [texts|e] eqn:Eread.
    2:{ destruct Hcase as (-> & _). discriminate. }
    destruct Hcase as (_ & Hcase).
    destruct (encoder s texts (model_batch_size s)) as [embs|e] eqn:Eenc.
    2:{ destruct Hcase as (-> & _). discriminate. }
    destruct Hcase as (_ & Hl). split; [|split].
    + assert (H : Forall (fun p => is_ok (read_text (fs s) p) = true) (map snd items))
        by (eapply read_all_readable; rewrite Eread; reflexivity).
      apply Forall_fmap in H. exact H.
    + rewrite <- Hit. apply Forall_fmap.
      eapply Forall_impl; [exact Hval|].
      intros x (root & H1 & H2 & _). exists root, (st_rel x). auto.
    + exists texts, embs. auto.
  - intros (_ & Hst & texts & embs & Hread & Henc & Hlen).
    eapply do_ingest_paths_with; eassumption.
Qed.

(** X2.  When the encoder raises, the ingest raises the encoder's exception: the
    files of the batch were read, nothing was written to the store, and in
    [_do_ingest_batch] the batch has left the queue for good. *)
Theorem encoder_error_aborts_batch s (texts : list string) (e : PyError) :
  read_all (fs s)
    (map snd (take (Z.to_nat (ingest_batch_size s)) (ingest_queue s))) [] = Ok texts ->
  encoder s texts (model_batch_size s) = Raise e ->
  exists s',
    _do_ingest_batch s = (Raise e, s') /\
    trace s' = trace s
      ++ map EvOpen (map snd (take (Z.to_nat (ingest_batch_size s)) (ingest_queue s)))
      ++ [EvEncode texts (model_batch_size s)] /\
    database s' = database s /\
    ingest_queue s' = drop (Z.to_nat (ingest_batch_size s)) (ingest_queue s) /\
    (ingest_queue s <> [] ->
     forall fuel stop_when_done, run_ingestor (S fuel) stop_when_done s = Raised e s').
Proof.
  intros Hread Henc. set (n := Z.to_nat (ingest_batch_size s)) in *.
  destruct (_do_ingest_batch s) as [r s'] eqn:E.
  pose proof E as E'. rewrite do_ingest_batch_unfold in E'. fold n in E'.
  apply do_ingest_paths_shape in E'.
  destruct E' as (_ & Hq & enc & stored & last & Htr & Hdb & _ & _ & _ & _ & Hcase).
  cbn [fs logger set_queue model_batch_size encoder trace database ingest_queue] in *.
  rewrite Hread in Hcase. destruct Hcase as (-> & Hcase).
  rewrite Henc in Hcase. destruct Hcase as (-> & -> & ->).
  rewrite (read_all_opened _ _ []) in Htr by (rewrite Hread; reflexivity).
  cbn [flat_map foldl app] in Htr, Hdb.
  exists s'. split; [reflexivity|]. split; [exact Htr|]. split; [exact Hdb|].
  split; [exact Hq|].
  intros Hne fuel stop. rewrite run_ingestor_step, E by exact Hne. reflexivity.
Qed.

(** *** A batch that fails while storing *)

Lemma dict_get_raises {V} (d : list (string * V)) (k : string) (e : PyError) :
  dict_get d k = Raise e -> e = KeyError k /\ k ∉ map fst d.
Proof.
  induction d as [|[k' v] d IH]; cbn.
  - intros [= <-]. split; [reflexivity|]. intros H. inversion H.
  - destruct (decide (k' = k)) as [->|Hne]; [discriminate|].
    intros H. destruct (IH H) as [-> Hn]. split; [reflexivity|].
    intros Hin. apply elem_of_cons in Hin as [Heq|Hin]; [congruence|contradiction].
Qed.

Lemma store_embeddings_stops (pre post : list (string * Path)) (v : string)
    (p : Path) (embs : list Emb) s (e : PyError) :
  Forall (ingestible s) pre ->
  length embs = length (pre ++ (v, p) :: post) ->
  (dict_get (vaults s) v = Raise e \/
   exists root, dict_get (vaults s) v = Ok root /\ relative_to p root = Raise e) ->
  exists (stored : list Stored) s',
    store_embeddings (pre ++ (v, p) :: post) embs s = (Raise e, s') /\
    frame s s' /\ ingest_queue s' = ingest_queue s /\
    map st_item stored = pre /\
    map st_emb stored = take (length pre) embs /\
    Forall (st_valid s) stored /\
    trace s' = trace s ++ flat_map st_events stored /\
    database s' = foldl st_write (database s) stored.
Proof.
  revert embs s. induction pre as [|[v0 p0] pre IH]; intros [|emb embs] s Hall Hlen Hbad;
    try discriminate.
  - exists [], s. cbn [app store_embeddings]. unfold bind at 1.
    destruct Hbad as [Hget|(root & Hget & Hrel)]; rewrite Hget.
    + cbn. rewrite app_nil_r. repeat split; auto.
    + unfold bind at 1, lift. rewrite Hrel. cbn. rewrite app_nil_r. repeat split; auto.
  - apply Forall_cons in Hall as [(Hread & root & rel & Hroot & Hrel) Hall].
    cbn [fst snd] in Hread, Hroot, Hrel.
    change (((v0, p0) :: pre) ++ (v, p) :: post) with ((v0, p0) :: (pre ++ (v, p) :: post)).
    cbn [store_embeddings]. unfold bind at 1. rewrite Hroot.
    unfold bind at 1, lift. rewrite Hrel.
    unfold bind at 1, stat.
    pose proof (read_ok_stat_ok _ _ Hread) as Hstat.
    destruct (stat_mtime (fs s) p0) as [m|] eqn:Em; [|discriminate].
    unfold bind at 1, store_note, modify.
    set (s1 := emit (EvStore rel v0 m emb) _).
    assert (Hfr1 : frame s s1) by (repeat split).
    destruct (IH embs s1) as (stored & s' & E & Hfr & Hq & Hit & Hemb & Hval & Htr & Hdb).
    { eapply Forall_impl; [exact Hall|]. intros y. apply ingestible_frame. exact Hfr1. }
    { cbn in Hlen. cbn. lia. }
    { exact Hbad. }
    set (x := {| st_vault := v0; st_path := p0; st_rel := rel; st_mtime := m; st_emb := emb |}).
    exists (x :: stored), s'. split; [exact E|].
    split; [exact (frame_trans _ _ _ Hfr1 Hfr)|]. split; [rewrite Hq; reflexivity|].
    split; [cbn [map]; rewrite Hit; reflexivity|].
    split; [cbn [map length take]; rewrite Hemb; reflexivity|].
    split.
    { constructor; [exists root; auto|].
      eapply Forall_impl; [exact Hval|]. intros y. apply st_valid_frame. exact Hfr1. }
    split.
    { rewrite Htr. subst s1. cbn. rewrite <- !app_assoc. reflexivity. }
    rewrite Hdb. reflexivity.
Qed.

(** X3.  The storing loop stops at the first item whose vault is not configured
    ([KeyError]) or whose path is not under the root of its vault
    ([ValueError]).  By then every file of the batch has been read and the
    encoder has been called; the items before the failing one have been
    written, one write each, and the failing item and those after it have
    not. *)
Theorem store_stops_at_first_bad_item (pre post : list (string * Path))
    (v : string) (p : Path) s (e : PyError) :
  Forall (fun it : string * Path => is_ok (read_text (fs s) it.2) = true)
         (pre ++ (v, p) :: post) ->
  Forall (storable s) pre ->
  encoder_contract (encoder s) ->
  (dict_get (vaults s) v = Raise e \/
   exists root, dict_get (vaults s) v = Ok root /\ relative_to p root = Raise e) ->
  exists s' texts (stored : list Stored),
    _do_ingest_paths (pre ++ (v, p) :: post) s = (Raise e, s') /\
    trace s' = trace s ++ map EvOpen (map snd (pre ++ (v, p) :: post))
                 ++ [EvEncode texts (model_batch_size s)]
                 ++ flat_map st_events stored /\
    map st_item stored = pre /\
    Forall (st_valid s) stored /\
    database s' = foldl st_write (database s) stored /\
    count_events is_store (trace s') = count_events is_store (trace s) + length pre /\
    (dict_get (vaults s) v = Raise e -> e = KeyError v).
Proof.
  intros Hrd Hst Hcontract Hbad.
  set (items := pre ++ (v, p) :: post) in *.
  assert (Hread : is_ok (read_all (fs s) (map snd items) []) = true)
    by (apply read_all_ok, Forall_fmap; exact Hrd).
  destruct (read_all (fs s) (map snd items) []) as [texts|] eqn:Eread; [|discriminate].
  pose proof (read_all_length _ _ _ _ Eread) as Htl. rewrite length_map in Htl. cbn in Htl.
  destruct (Hcontract texts (model_batch_size s)) as (embs & Henc & Hlen).
  unfold _do_ingest_paths.
  unfold bind at 1, modify. unfold bind at 1.
  set (s0 := logger _ _ _ (logger _ _ _ s)).
  unfold bind at 1. rewrite load_texts_spec. change (fs s0) with (fs s).
  destruct (emits_fields (map EvOpen (opened (fs s) (map snd items))) s0)
    as (Hfr0 & Hq0 & Hdb0 & _ & Htr0).
  set (s1 := emits _ s0) in *. rewrite Eread.
  unfold bind at 1. unfold bind at 1, encode_documents.
  destruct Hfr0 as (Hfs0 & Hv0 & Henc0 & Hbs0 & Hmbs0 & Hw0).
  change (encoder s0) with (encoder s) in Henc0.
  change (model_batch_size s0) with (model_batch_size s) in Hmbs0.
  change (fs s0) with (fs s) in Hfs0. change (vaults s0) with (vaults s) in Hv0.
  change (trace s0) with (trace s) in Htr0. change (database s0) with (database s) in Hdb0.
  cbn [logger encoder model_batch_size].
  rewrite Henc0, Hmbs0, Henc.
  unfold bind at 1.
  set (s2 := logger _ _ _ (emit _ (logger _ _ _ s1))).
  assert (Hfr2 : frame s s2) by (repeat split; assumption).
  destruct (store_embeddings_stops pre post v p embs s2 e)
    as (stored & s' & E & _ & _ & Hit & _ & Hval & Htr & Hdb).
  { apply Forall_forall. intros it Hin. eapply ingestible_frame; [exact Hfr2|]. split.
    - apply (proj1 (Forall_forall _ _) Hrd). subst items. apply elem_of_app. auto.
    - exact (proj1 (Forall_forall _ _) Hst _ Hin). }
  { fold items. lia. }
  { replace (vaults s2) with (vaults s) by (symmetry; apply Hfr2). exact Hbad. }
  fold items in E. rewrite E.
  exists s', texts, stored. split; [reflexivity|].
  assert (Htr' : trace s' = trace s ++ map EvOpen (map snd items)
                   ++ [EvEncode texts (model_batch_size s)] ++ flat_map st_events stored).
  { rewrite Htr. subst s2. cbn [trace logger emit]. rewrite Htr0.
    rewrite (read_all_opened _ _ []) by (rewrite Eread; reflexivity).
    rewrite <- !app_assoc. reflexivity. }
  split; [exact Htr'|]. split; [exact Hit|].
  split.
  { eapply Forall_impl; [exact Hval|]. intros y. apply st_valid_frame. exact Hfr2. }
  split; [rewrite Hdb; subst s2; cbn [database logger emit]; rewrite Hdb0; reflexivity|].
  split.
  - rewrite Htr', !count_events_app, count_events_opens by reflexivity.
    rewrite count_stores_stored.
    rewrite (count_events_none _ [EvEncode _ _])
      by (apply Forall_cons_2; [reflexivity|apply Forall_nil_2]).
    apply (f_equal length) in Hit. rewrite length_map in Hit. lia.
  - intros Hget. apply dict_get_raises in Hget. apply Hget.
Qed.

(** *** What an ingest leaves in the database *)

Lemma lookup_foldl_write (db : Database.t Emb) (l : list Stored) (k : string * Path) :
  foldl st_write db l !! k =
  match written l k with Some r => Some r | None => db !! k end.
Proof.
  revert db. induction l as [|x l IH]; intros db; [reflexivity|].
  cbn [foldl written]. rewrite IH.
  destruct (written l k); [reflexivity|].
  unfold st_write, Database.store_note. rewrite lookup_insert.
  unfold st_key, st_record. destruct (decide (_ = k)); reflexivity.
Qed.

Lemma written_some (l : list (@Stored Emb)) (k : string * Path)
    (r : Database.NoteRecord Emb) :
  written l k = Some r -> exists x, x ∈ l /\ st_key x = k /\ r = st_record x.
Proof.
  induction l as [|x l IH]; cbn [written]; [discriminate|].
  destruct (written l k) as [r'|].
  - intros [= <-]. destruct (IH eq_refl) as (y & Hy & Hk & Hr).
    exists y. split; [right; exact Hy|auto].
  - destruct (decide (st_key x = k)); [|discriminate].
    intros [= <-]. exists x. split; [left|auto].
Qed.

Lemma written_none (l : list (@Stored Emb)) (k : string * Path) :
  Forall (fun x => st_key x <> k) l -> written l k = None.
Proof.
  induction 1 as [|x l Hx _ IH]; [reflexivity|].
  cbn [written]. rewrite IH. destruct (decide (st_key x = k)); [contradiction|reflexivity].
Qed.

Lemma written_elem (l : list (@Stored Emb)) (x : Stored) :
  x ∈ l -> is_Some (written l (st_key x)).
Proof.
  induction l as [|y l IH]; intros Hin; [inversion Hin|].
  apply elem_of_cons in Hin as [->|Hin]; cbn [written].
  - destruct (written l (st_key y)); [eauto|].
    rewrite decide_True by reflexivity. eauto.
  - destruct (IH Hin) as [r ->]. eauto.
Qed.

Lemma size_foldl_write (db : Database.t Emb) (l : list Stored) :
  size (foldl st_write db l) <= size db + length l.
Proof.
  revert db. induction l as [|x l IH]; intros db; [cbn; lia|].
  cbn [foldl length]. specialize (IH (st_write db x)).
  assert (size (st_write db x) <= S (size db)).
  { unfold st_write, Database.store_note.
    destruct (db !! (st_vault x, st_rel x)) eqn:E.
    - rewrite map_size_insert_Some by eauto. lia.
    - rewrite map_size_insert_None by exact E. lia. }
  lia.
Qed.

(** Two valid passes for the same item wrote the same key and time. *)
Lemma st_valid_same s (x y : Stored) :
  st_valid s x -> st_valid s y -> st_item x = st_item y ->
  st_rel x = st_rel y /\ st_mtime x = st_mtime y.
Proof.
  intros (rx & Hx1 & Hx2 & Hx3) (ry & Hy1 & Hy2 & Hy3) [= Hv Hp].
  rewrite Hv, Hy1 in Hx1. injection Hx1 as <-.
  rewrite Hp, Hy2 in Hx2. injection Hx2 as <-.
  rewrite Hp, Hy3 in Hx3. injection Hx3 as <-. auto.
Qed.

(** Two valid passes under the same key were for the same file. *)
Lemma st_valid_key s (x y : Stored) :
  st_valid s x -> st_valid s y -> st_key x = st_key y ->
  st_path x = st_path y /\ st_mtime x = st_mtime y.
Proof.
  intros (rx & Hx1 & Hx2 & Hx3) (ry & Hy1 & Hy2 & Hy3) [= Hv Hr].
  rewrite Hv, Hy1 in Hx1. injection Hx1 as <-.
  unfold relative_to in Hx2, Hy2.
  destruct (strip_prefix ry (st_path x)) as [relx|] eqn:Ex; [|discriminate].
  destruct (strip_prefix ry (st_path y)) as [rely|] eqn:Ey; [|discriminate].
  injection Hx2 as ->. injection Hy2 as ->.
  apply strip_prefix_app in Ex, Ey.
  assert (Hp : st_path x = st_path y) by congruence.
  split; [exact Hp|]. rewrite Hp, Hy3 in Hx3. congruence.
Qed.

Lemma stored_determined s (a b : list Stored) :
  map st_item a = map st_item b -> map st_emb a = map st_emb b ->
  Forall (st_valid s) a -> Forall (st_valid s) b -> a = b.
Proof.
  revert b. induction a as [|x a IH]; intros [|y b]; try discriminate; [reflexivity|].
  intros [= Hv Hp Hit] [= He Hemb] Ha Hb.
  apply Forall_cons in Ha as [Hx Ha]. apply Forall_cons in Hb as [Hy Hb].
  destruct (st_valid_same s x y Hx Hy) as [Hr Hm]; [unfold st_item; congruence|].
  f_equal; [|apply IH; assumption].
  destruct x, y. cbn in *. congruence.
Qed.

(** X4.  After an ingest that succeeded, every item of the batch has a record
    under its vault and its path relative to the vault's root, carrying the
    modification time of its file; every other key of the database is as it
    was; and the database has grown by at most one record per item. *)
Theorem ingest_round_trip items s :
  is_ok (_do_ingest_paths items s).1 = true ->
  let s' := (_do_ingest_paths items s).2 in
  (forall v p, (v, p) ∈ items ->
     exists root rel m emb,
       dict_get (vaults s) v = Ok root /\ relative_to p root = Ok rel /\
       stat_mtime (fs s) p = Ok m /\
       database s' !! (v, rel)
       = Some {| Database.modified_time := m; Database.embedding := emb |}) /\
  (forall k,
     (forall v p root rel,
        (v, p) ∈ items -> dict_get (vaults s) v = Ok root ->
        relative_to p root = Ok rel -> (v, rel) <> k) ->
     database s' !! k = database s !! k) /\
  (Database.num_notes (database s')
   <= Database.num_notes (database s) + Z.of_nat (length items))%Z.
Proof.
  destruct (_do_ingest_paths items s) as [r s'] eqn:E. cbn [fst snd]. intros Hr.
  apply do_ingest_paths_shape in E.
  destruct E as (_ & _ & enc & stored & last & _ & Hdb & Hval & Hit & _ & Hok & _).
  destruct (Hok Hr) as (Hlen & _). rewrite Hlen, firstn_all in Hit.
  split; [|split].
  - intros v p Hin. rewrite <- Hit in Hin.
    apply list_elem_of_fmap in Hin as (x & Hx & Hxin).
    pose proof (proj1 (Forall_forall _ _) Hval x Hxin) as Hvx.
    destruct (written_elem stored x Hxin) as (rec & Hw).
    destruct (written_some _ _ _ Hw) as (y & Hyin & Hk & ->).
    pose proof (proj1 (Forall_forall _ _) Hval y Hyin) as Hvy.
    destruct (st_valid_key s y x Hvy Hvx Hk) as (_ & Hm).
    destruct Hvx as (root & H1 & H2 & H3).
    injection Hx as -> ->.
    exists root, (st_rel x), (st_mtime x), (st_emb y).
    split; [exact H1|]. split; [exact H2|]. split; [exact H3|].
    rewrite Hdb, lookup_foldl_write.
    change (st_vault x, st_rel x) with (st_key x). rewrite Hw.
    unfold st_record. rewrite Hm. reflexivity.
  - intros k Hk. rewrite Hdb, lookup_foldl_write, written_none; [reflexivity|].
    apply Forall_forall. intros x Hxin.
    destruct (proj1 (Forall_forall _ _) Hval x Hxin) as (root & H1 & H2 & _).
    apply (Hk (st_vault x) (st_path x) root (st_rel x)); [|exact H1|exact H2].
    rewrite <- Hit. apply list_elem_of_fmap. exists x. auto.
  - unfold Database.num_notes. rewrite Hdb.
    pose proof (size_foldl_write (database s) stored) as Hs.
    apply (f_equal length) in Hit. rewrite length_map in Hit. lia.
Qed.

(** X5.  Ingesting the same batch a second time, with the files unchanged,
    succeeds again, writes every record again and leaves the database as
    the first ingest left it. *)
Theorem reingest_is_idempotent items s :
  is_ok (_do_ingest_paths items s).1 = true ->
  let s1 := (_do_ingest_paths items s).2 in
  let s2 := (_do_ingest_paths items s1).2 in
  is_ok (_do_ingest_paths items s1).1 = true /\
  database s2 = database s1 /\
  count_events is_store (trace s2) = count_events is_store (trace s1) + length items.
Proof.
  intros Hr s1 s2.
  pose proof (proj1 (ingest_succeeds_iff items s) Hr)
    as (Hrd & Hst & texts & embs & Hread & Henc & Hlen).
  assert (E1 : _do_ingest_paths items s = ((_do_ingest_paths items s).1, s1))
    by (subst s1; destruct (_do_ingest_paths items s); reflexivity).
  apply do_ingest_paths_shape in E1.
  destruct E1 as (Hfr & _ & enc1 & st1 & last1 & _ & Hdb1 & Hval1 & Hit1 & _ & Hok1 & Hcase1).
  destruct (Hok1 Hr) as (Hlen1 & _). rewrite Hlen1, firstn_all in Hit1.
  rewrite Hread, Henc in Hcase1. destruct Hcase1 as (_ & Hemb1 & _).
  destruct Hfr as (Hfs & Hv & Hen & Hbs & Hmbs & Hw).
  assert (Hr2 : is_ok (_do_ingest_paths items s1).1 = true).
  { apply (do_ingest_paths_with items s1 texts embs).
    - rewrite Hfs. exact Hread.
    - rewrite Hen, Hmbs. exact Henc.
    - eapply Forall_impl; [exact Hst|]. intros it (root & rel & H1 & H2).
      exists root, rel. rewrite Hv. auto.
    - exact Hlen. }
  split; [exact Hr2|].
  assert (E2 : _do_ingest_paths items s1 = ((_do_ingest_paths items s1).1, s2))
    by (subst s2; destruct (_do_ingest_paths items s1); reflexivity).
  apply do_ingest_paths_shape in E2.
  destruct E2 as (_ & _ & enc2 & st2 & last2 & Htr2 & Hdb2 & Hval2 & Hit2 & _ & Hok2 & Hcase2).
  destruct (Hok2 Hr2) as (Hlen2 & ->). rewrite Hlen2, firstn_all in Hit2.
  rewrite Hfs, Hread, Hen, Hmbs, Henc in Hcase2. destruct Hcase2 as (-> & Hemb2 & _).
  assert (Hsame : st2 = st1).
  { apply (stored_determined s).
    - congruence.
    - rewrite Hemb1, Hemb2, Hlen1, Hlen2. reflexivity.
    - eapply Forall_impl; [exact Hval2|]. intros y. apply st_valid_frame.
      repeat split; assumption.
    - exact Hval1. }
  subst st2. split.
  - rewrite Hdb2, Hdb1. apply map_eq. intros k.
    rewrite !lookup_foldl_write. destruct (written st1 k); reflexivity.
  - rewrite Htr2, !count_events_app, count_events_opens by reflexivity.
    rewrite count_stores_stored, Hlen1.
    rewrite (count_events_none _ [EvEncode _ _])
      by (apply Forall_cons_2; [reflexivity|apply Forall_nil_2]).
    change (count_events is_store (@nil (Event Emb))) with 0. lia.
Qed.

(** *** A batch size below one *)

Lemma empty_batch_ingest s :
  (ingest_batch_size s <= 0)%Z -> encoder_contract (encoder s) ->
  exists s1,
    _do_ingest_batch s = (Ok tt, s1) /\ frame s s1 /\
    ingest_queue s1 = ingest_queue s /\ database s1 = database s /\
    trace s1 = trace s ++ [EvEncode [] (model_batch_size s)].
Proof.
  intros Hbs Hcontract.
  destruct (Hcontract [] (model_batch_size s)) as (embs & Henc & Hlen).
  destruct (_do_ingest_batch s) as [r s1] eqn:E.
  pose proof E as E'. rewrite do_ingest_batch_unfold in E'.
  replace (Z.to_nat (ingest_batch_size s)) with 0 in E' by lia.
  rewrite take_0, drop_0 in E'.
  assert (Hr : is_ok r = true).
  { pose proof (f_equal fst E') as E1. cbn [fst] in E1. rewrite <- E1.
    apply (do_ingest_paths_with [] _ [] embs); [reflexivity|exact Henc|constructor|exact Hlen]. }
  apply do_ingest_paths_shape in E'.
  destruct E' as (Hfr & Hq & enc & stored & last & Htr & Hdb & _ & _ & _ & Hok & Hcase).
  cbn [fs logger set_queue model_batch_size encoder trace database ingest_queue
       map opened read_all] in *.
  destruct (Hok Hr) as (Hl & ->). destruct stored; [|discriminate Hl].
  destruct Hcase as (-> & _). destruct r as [[]|]; [|discriminate].
  exists s1. split; [reflexivity|]. split; [exact Hfr|]. split; [exact Hq|].
  split; [exact Hdb|]. exact Htr.
Qed.

(** X6.  With a batch size below one, each pass of the loop drains nothing and
    calls the encoder on no text.  On a queue that is not empty the loop
    therefore never stops, in one-shot mode as in watch mode: after any
    number of passes it is still running, with the queue and the database as
    they were. *)
Theorem nonpositive_batch_never_drains s :
  (ingest_batch_size s <= 0)%Z -> ingest_queue s <> [] ->
  encoder_contract (encoder s) ->
  forall fuel stop_when_done,
  exists s',
    run_ingestor fuel stop_when_done s = Running s' /\
    ingest_queue s' = ingest_queue s /\ database s' = database s /\
    count_events is_store (trace s') = count_events is_store (trace s) /\
    count_events is_encode (trace s') = count_events is_encode (trace s) + fuel.
Proof.
  intros Hbs Hne Hcontract fuel stop. revert s Hbs Hne Hcontract.
  induction fuel as [|fuel IH]; intros s Hbs Hne Hcontract.
  - exists s. cbn. repeat split; lia.
  - rewrite run_ingestor_step by exact Hne.
    destruct (empty_batch_ingest s Hbs Hcontract) as (s1 & -> & Hfr & Hq & Hdb & Htr).
    destruct Hfr as (Hfs & Hv & Hen & Hb & Hm & Hw).
    destruct (IH s1) as (s' & E & Hq' & Hdb' & Hst' & Hen').
    { rewrite Hb. exact Hbs. }
    { rewrite Hq. exact Hne. }
    { rewrite Hen. exact Hcontract. }
    exists s'. split; [exact E|]. split; [congruence|]. split; [congruence|].
    rewrite Hst', Hen', Htr, !count_events_app.
    change (count_events is_store [EvEncode [] (model_batch_size s)]) with 0.
    change (count_events is_encode [EvEncode (Emb:=Emb) [] (model_batch_size s)]) with 1.
    split; lia.
Qed.

(** *** From a notification to the database *)


(** A run of valid passes leaves, under the key of each of them, a record
    with that pass's modification time. *)
Lemma stored_lookup s (db : Database.t Emb) (stored : list Stored) (x : Stored) :
  Forall (st_valid s) stored -> x ∈ stored ->
  exists emb,
    foldl st_write db stored !! st_key x
    = Some {| Database.modified_time := st_mtime x; Database.embedding := emb |}.
Proof.
  intros Hval Hxin.
  pose proof (proj1 (Forall_forall _ _) Hval x Hxin) as Hvx.
  destruct (written_elem stored x Hxin) as (rec & Hw).
  destruct (written_some _ _ _ Hw) as (y & Hyin & Hk & ->).
  pose proof (proj1 (Forall_forall _ _) Hval y Hyin) as Hvy.
  destruct (st_valid_key s y x Hvy Hvx Hk) as (_ & Hm).
  exists (st_emb y). rewrite lookup_foldl_write, Hw.
  unfold st_record. rewrite Hm. reflexivity.
Qed.

End WithEmbedding.

End IndexerMore.

(** ** The vault dictionary and the index command of main.py *)

Module MainProps.

Import Indexer Spec PathlibProps IndexerProps Main.

Lemma dict_set_fresh {V} (d : list (string * V)) (k : string) (v : V) :
  k ∉ map fst d -> dict_set d k v = d ++ [(k, v)].
Proof.
  induction d as [|[k' v'] d IH]; intros Hk; [reflexivity|].
  cbn. destruct (decide (k' = k)) as [->|Hne].
  - exfalso. apply Hk. left.
  - rewrite IH; [reflexivity|]. intros Hin. apply Hk. right. exact Hin.
Qed.

Lemma dict_set_keys {V} (d : list (string * V)) (k : string) (v : V) :
  map fst (dict_set d k v) =
  if decide (k ∈ map fst d) then map fst d else map fst d ++ [k].
Proof.
  induction d as [|[k' v'] d IH]; [reflexivity|].
  cbn. destruct (decide (k' = k)) as [->|Hne].
  - rewrite decide_True by left. reflexivity.
  - cbn. rewrite IH. destruct (decide (k ∈ map fst d)) as [Hin|Hnin].
    + rewrite decide_True by (right; exact Hin). reflexivity.
    + rewrite decide_False; [reflexivity|].
      intros H. apply elem_of_cons in H as [->|H]; contradiction.
Qed.

Lemma dict_set_NoDup {V} (d : list (string * V)) (k : string) (v : V) :
  NoDup (map fst d) -> NoDup (map fst (dict_set d k v)).
Proof.
  intros Hnd. rewrite dict_set_keys. destruct (decide (k ∈ map fst d)); [exact Hnd|].
  apply NoDup_app. split; [exact Hnd|]. split; [|apply NoDup_singleton].
  intros x Hx Hk. apply list_elem_of_singleton in Hk. subst x. contradiction.
Qed.

Lemma dict_get_set_eq {V} (d : list (string * V)) (k : string) (v : V) :
  dict_get (dict_set d k v) k = Ok v.
Proof.
  induction d as [|[k' v'] d IH]; cbn.
  - rewrite decide_True by reflexivity. reflexivity.
  - destruct (decide (k' = k)) as [->|Hne]; cbn.
    + rewrite decide_True by reflexivity. reflexivity.
    + rewrite decide_False by exact Hne. exact IH.
Qed.

Lemma dict_get_set_ne {V} (d : list (string * V)) (k k' : string) (v : V) :
  k' <> k -> dict_get (dict_set d k v) k' = dict_get d k'.
Proof.
  intros Hne. induction d as [|[k0 v0] d IH]; cbn.
  - rewrite decide_False by congruence. reflexivity.
  - destruct (decide (k0 = k)) as [->|Hne0]; cbn.
    + rewrite !decide_False by congruence. reflexivity.
    + destruct (decide (k0 = k')); [reflexivity|exact IH].
Qed.

Lemma dict_set_elem {V} (d : list (string * V)) (k k' : string) (v v' : V) :
  (k', v') ∈ dict_set d k v -> (k', v') = (k, v) \/ (k', v') ∈ d.
Proof.
  induction d as [|[k0 v0] d IH]; cbn.
  - intros H. apply list_elem_of_singleton in H. auto.
  - destruct (decide (k0 = k)) as [->|Hne]; intros H;
      apply elem_of_cons in H as [H|H].
    + left. exact H.
    + right. right. exact H.
    + right. rewrite H. left.
    + destruct (IH H) as [?|?]; [auto|right; right; assumption].
Qed.

Lemma vaults_of_snoc (ps : list Path) (p : Path) :
  vaults_of (ps ++ [p]) = dict_set (vaults_of ps) (name p) p.
Proof. unfold vaults_of. rewrite foldl_app. reflexivity. Qed.

(** X8.  The dictionary [index_cmd] builds from the [--vault] options.  Its keys
    are distinct; every entry is one of the given paths under that path's
    own name; every given path's name is a key; when several paths share a
    name the last of them is the one kept; and when no two share a name the
    dictionary lists all the paths, in the order given. *)
Theorem vaults_of_dict (ps : list Path) :
  NoDup (map fst (vaults_of ps)) /\
  (forall k v, (k, v) ∈ vaults_of ps -> v ∈ ps /\ name v = k) /\
  (forall p, p ∈ ps ->
     exists q, dict_get (vaults_of ps) (name p) = Ok q /\ name q = name p /\ q ∈ ps) /\
  (forall pre p post,
     ps = pre ++ p :: post -> Forall (fun q => name q <> name p) post ->
     dict_get (vaults_of ps) (name p) = Ok p) /\
  (NoDup (map name ps) -> vaults_of ps = map (fun p => (name p, p)) ps).
Proof.
  assert (Hnd : forall ps, NoDup (map fst (vaults_of ps))).
  { induction ps0 as [|p ps0 IH] using rev_ind; [constructor|].
    rewrite vaults_of_snoc. apply dict_set_NoDup. exact IH. }
  assert (Hel : forall ps k v, (k, v) ∈ vaults_of ps -> v ∈ ps /\ name v = k).
  { induction ps0 as [|p ps0 IH] using rev_ind; intros k v Hin; [inversion Hin|].
    rewrite vaults_of_snoc in Hin. apply dict_set_elem in Hin as [[= -> ->]|Hin].
    - split; [apply elem_of_app; right; left|reflexivity].
    - destruct (IH _ _ Hin) as [H1 H2]. split; [apply elem_of_app; auto|exact H2]. }
  assert (Hlast : forall pre p post,
            Forall (fun q => name q <> name p) post ->
            dict_get (vaults_of (pre ++ p :: post)) (name p) = Ok p).
  { intros pre p post. induction post as [|q post IH] using rev_ind; intros Hall.
    - rewrite vaults_of_snoc. apply dict_get_set_eq.
    - apply Forall_app in Hall as [Hall Hq]. apply Forall_cons in Hq as [Hq _].
      change (pre ++ p :: post ++ [q]) with (pre ++ (p :: post) ++ [q]).
      rewrite app_assoc, vaults_of_snoc, dict_get_set_ne by congruence.
      apply IH. exact Hall. }
  split; [apply Hnd|]. split; [apply Hel|]. split; [|split].
  - induction ps as [|p0 ps IH] using rev_ind; intros p Hin; [inversion Hin|].
    rewrite vaults_of_snoc.
    destruct (decide (name p = name p0)) as [Heq|Hne].
    + exists p0. rewrite Heq, dict_get_set_eq.
      split; [reflexivity|]. split; [reflexivity|]. apply elem_of_app. right. left.
    + apply elem_of_app in Hin as [Hin|Hin].
      * destruct (IH p Hin) as (q & Hq & Hn & Hqin). exists q.
        rewrite dict_get_set_ne by exact Hne.
        split; [exact Hq|]. split; [exact Hn|]. apply elem_of_app. auto.
      * apply list_elem_of_singleton in Hin. subst p0. contradiction.
  - intros pre p post -> Hall. apply Hlast. exact Hall.
  - induction ps as [|p ps IH] using rev_ind; intros Hn; [reflexivity|].
    rewrite map_app in Hn. apply NoDup_app in Hn as (Hn1 & Hn2 & _).
    rewrite vaults_of_snoc, IH by exact Hn1. rewrite map_app. cbn [map].
    apply dict_set_fresh. rewrite map_map. cbn [fst].
    intros Hin. apply (Hn2 (name p)); [exact Hin|left].
Qed.

Section WithEmbedding.

Context {Emb : Type}.


(** X10.  On an empty database the one-shot index command, with vault directories
    of distinct names, a batch size of at least one, notes that can be read
    and an encoder that keeps its contract, returns once it has stored every
    note: one store write per note, and for each note of each vault a record
    under the vault's directory name and the note's path relative to the
    vault, with the file's modification time. *)
Theorem index_cmd_builds_index (disk : FS) (db : Database.t Emb)
    (enc : list string -> Z -> Result (list Emb)) (vault_paths : list Path)
    (n m : Z) :
  NoDup (map name vault_paths) ->
  Database.num_notes db = 0%Z ->
  (1 <= n)%Z ->
  encoder_contract enc ->
  (forall vp p, vp ∈ vault_paths -> p ∈ note_files disk vp ->
                is_ok (read_text disk p) = true) ->
  exists s',
    (forall fuel,
       length (scan_items disk (vaults_of vault_paths)) < fuel ->
       index_cmd fuel disk db enc vault_paths false n m = Returned s') /\
    ingest_queue s' = [] /\
    count_events is_store (trace s')
    = length (scan_items disk (vaults_of vault_paths)) /\
    (forall vp p, vp ∈ vault_paths -> p ∈ note_files disk vp ->
       exists rel mt emb,
         relative_to p vp = Ok rel /\ stat_mtime disk p = Ok mt /\
         database s' !! (name vp, rel)
         = Some {| Database.modified_time := mt; Database.embedding := emb |}).
Proof.
  intros Hnd Hz Hn Hcontract Hreadable.
  destruct (vaults_of_dict vault_paths) as (Hkeys & _ & _ & _ & Hmap).
  specialize (Hmap Hnd).
  unfold index_cmd. cbn [negb].
  set (s0 := __init__ disk db (vaults_of vault_paths) enc false n m).
  destruct (init_fields disk db (vaults_of vault_paths) enc false n m)
    as (Hfs & Hvs & Henc & Hbs & _ & Hdb & Htr & Hq).
  fold s0 in Hfs, Hvs, Henc, Hbs, Hdb, Htr, Hq.
  rewrite Hz in Hq. cbn in Hq.
  assert (Hvault : forall v root, (v, root) ∈ vaults_of vault_paths ->
                                  root ∈ vault_paths /\ v = name root).
  { intros v root Hin. rewrite Hmap in Hin.
    apply list_elem_of_fmap in Hin as (q & [= -> ->] & Hq'). auto. }
  assert (Hing : Forall (ingestible s0) (ingest_queue s0)).
  { apply Forall_forall. intros [v p] Hin. rewrite Hq in Hin.
    apply scan_items_elem in Hin as (root & Hroot & Hp).
    destruct (Hvault v root Hroot) as (Hrin & ->). split.
    - cbn [snd]. rewrite Hfs. apply (Hreadable root p Hrin Hp).
    - pose proof (dict_get_NoDup _ _ _ Hkeys Hroot) as Hget.
      apply list_elem_of_filter in Hp as [_ Hp]. apply rglob_md_relative in Hp.
      destruct (relative_to p root) as [rel|] eqn:Erel; [|discriminate].
      exists root, rel. rewrite Hvs. auto. }
  destruct (one_shot_returns (length (ingest_queue s0)) s0) as (s' & Hrun); auto.
  { rewrite Hbs. exact Hn. }
  { rewrite Henc. exact Hcontract. }
  rewrite Hq in Hrun.
  exists s'. split; [exact Hrun|].
  specialize (Hrun _ (Nat.lt_succ_diag_r _)).
  apply one_shot_returned in Hrun.
  destruct Hrun as (Hq' & _ & stored & Hit & Hval & Hdb' & Hcnt).
  split; [exact Hq'|]. split.
  { rewrite Hcnt, Htr, Hq. reflexivity. }
  intros vp p Hvp Hp.
  assert (Hin : (name vp, p) ∈ ingest_queue s0).
  { rewrite Hq. apply scan_items_elem. exists vp. split; [|exact Hp].
    rewrite Hmap. apply list_elem_of_fmap. exists vp. auto. }
  rewrite <- Hit in Hin. apply list_elem_of_fmap in Hin as (x & Hx & Hxin).
  injection Hx as Hxv Hxp.
  destruct (proj1 (Forall_forall _ _) Hval x Hxin) as (root & H1 & H2 & H3).
  rewrite Hvs, <- Hxv in H1.
  assert (Hget : dict_get (vaults_of vault_paths) (name vp) = Ok vp).
  { apply dict_get_NoDup; [exact Hkeys|]. rewrite Hmap.
    apply list_elem_of_fmap. exists vp. auto. }
  rewrite Hget in H1. injection H1 as <-.
  rewrite <- Hxp in H2. rewrite Hfs, <- Hxp in H3.
  destruct (IndexerMore.stored_lookup s0 (database s0) stored x Hval Hxin) as (emb & Hlk).
  exists (st_rel x), (st_mtime x), emb.
  split; [exact H2|]. split; [exact H3|].
  rewrite Hdb'. unfold st_key in Hlk. rewrite <- Hxv in Hlk. exact Hlk.
Qed.

End WithEmbedding.

End MainProps.

(** ** More on worker.py *)

Module WorkerMore.

Import Worker PathlibProps.

Section WithEmbedding.

Context {Emb : Type}.

Implicit Types (s : Worker.t Emb).





End WithEmbedding.

End WorkerMore.

(** ** The detached indexer of mcp_server.py *)

Module LauncherProps.

Import Launcher Main.

Lemma option_values_vaults (ps : list Path) (tail : list Arg) :
  option_values "--vault"
    (flat_map (fun vault_path => [ArgStr "--vault"; ArgPath vault_path]) ps ++ tail)
  = ps ++ option_values "--vault" tail.
Proof.
  induction ps as [|p ps IH]; [reflexivity|].
  cbn [flat_map app option_values]. rewrite decide_True by reflexivity.
  cbn [app]. f_equal. exact IH.
Qed.

Lemma names_match_map (vaults : list (string * Path)) :
  Forall (fun v : string * Path => name v.2 = v.1) vaults ->
  map name (map snd vaults) = map fst vaults /\
  map (fun p => (name p, p)) (map snd vaults) = vaults.
Proof.
  induction 1 as [|[k p] vs Hk _ [IH1 IH2]]; [split; reflexivity|].
  cbn in Hk. cbn. rewrite IH1, IH2, Hk. split; reflexivity.
Qed.

(** X13.  [run_background_indexer] starts the process exactly when every vault's
    key is the name of its directory, and fails its assertion otherwise.
    The arguments are the interpreter, the program, [index], the database,
    one [--vault] per vault in the dictionary's order, and [--watch] last.
    From the [--vault] paths the [index] command rebuilds the dictionary it
    was started for, and runs its loop in watch mode. *)
Theorem launch_rebuilds_vaults (executable argv0 : string)
    (vaults : list (string * Path)) (database_path : Path) :
  NoDup (map fst vaults) ->
  (Forall (fun v : string * Path => name v.2 = v.1) vaults ->
   exists args,
     run_background_indexer executable argv0 vaults database_path = Popen args /\
     take 3 args = [ArgStr executable; ArgStr argv0; ArgStr "index"] /\
     option_values "--database" args = [database_path] /\
     option_values "--vault" args = map snd vaults /\
     last args = Some (ArgStr "--watch") /\
     vaults_of (option_values "--vault" args) = vaults /\
     forall (Emb : Type) fuel disk (db : Database.t Emb) enc n m,
       index_cmd fuel disk db enc (option_values "--vault" args) true n m
       = Indexer.run_ingestor fuel false
           (Indexer.__init__ disk db vaults enc true n m)) /\
  (Exists (fun v : string * Path => name v.2 <> v.1) vaults ->
   exists msg,
     run_background_indexer executable argv0 vaults database_path
     = AssertionError msg).
Proof.
  intros Hnd. unfold run_background_indexer. split.
  - intros Hall.
    assert (Hb : forallb (fun '(vault_name, vault_path) =>
                            bool_decide (name vault_path = vault_name)) vaults = true).
    { apply forallb_forall. intros [k p] Hin.
      apply bool_decide_eq_true. apply list_elem_of_In in Hin.
      exact (proj1 (Forall_forall _ _) Hall _ Hin). }
    rewrite Hb. eexists. split; [reflexivity|].
    destruct (names_match_map vaults Hall) as [Hn Hm].
    assert (Hv : option_values "--vault"
                   ([ArgStr executable; ArgStr argv0; ArgStr "index";
                     ArgStr "--database"; ArgPath database_path]
                    ++ flat_map (fun vault_path => [ArgStr "--vault"; ArgPath vault_path])
                         (map snd vaults) ++ [ArgStr "--watch"])
                 = map snd vaults).
    { cbn [app option_values]. rewrite decide_False by discriminate.
      cbn [app]. rewrite option_values_vaults. cbn. apply app_nil_r. }
    assert (Hvs : vaults_of (map snd vaults) = vaults).
    { destruct (MainProps.vaults_of_dict (map snd vaults)) as (_ & _ & _ & _ & H).
      rewrite H; [exact Hm|]. rewrite Hn. exact Hnd. }
    split; [reflexivity|]. split.
    { cbn [app option_values]. rewrite decide_True by reflexivity. cbn [app]. f_equal.
      generalize (map snd vaults). intros ps.
      induction ps as [|p ps IH]; [reflexivity|].
      cbn [flat_map app option_values]. rewrite decide_False by discriminate.
      cbn [app]. exact IH. }
    split; [exact Hv|]. split.
    { rewrite !app_assoc. apply last_snoc. }
    rewrite Hv. split; [exact Hvs|].
    intros Emb fuel disk db enc n m. unfold index_cmd. rewrite Hvs. reflexivity.
  - intros Hex.
    assert (Hb : forallb (fun '(vault_name, vault_path) =>
                            bool_decide (name vault_path = vault_name)) vaults = false).
    { apply not_true_is_false. intros Hb.
      rewrite forallb_forall in Hb.
      apply Exists_exists in Hex as ([k p] & Hin & Hne).
      apply list_elem_of_In, Hb, bool_decide_eq_true in Hin. contradiction. }
    rewrite Hb. eexists. reflexivity.
Qed.

End LauncherProps.

(** ** What the scan of indexer.py skips *)

Module ScanProps.

Import Indexer Spec.

Section WithEmbedding.

Context {Emb : Type}.

Implicit Types (s : Indexer.t Emb).

Lemma warnings_app (l1 l2 : list LogRecord) :
  warnings (l1 ++ l2) = warnings l1 ++ warnings l2.
Proof. unfold warnings. apply filter_app. Qed.

Lemma enqueue_found_warnings (v : string) (paths : list Path) s :
  let s' := foldl (enqueue_found v) s paths in
  fs s' = fs s /\
  warnings (log s') =
    warnings (log s)
    ++ map not_a_file_warning (filter (fun p => is_file (fs s) p = false) paths).
Proof.
  revert s. induction paths as [|p paths IH]; intros s.
  - cbn. rewrite app_nil_r. auto.
  - cbn [foldl]. destruct (IH (enqueue_found v s p)) as (Hfs & Hw).
    assert (H1 : fs (enqueue_found v s p) = fs s /\
                 warnings (log (enqueue_found v s p)) =
                 warnings (log s)
                 ++ (if is_file (fs s) p then [] else [not_a_file_warning p])).
    { unfold enqueue_found, enqueue_path_for_ingestion. cbn [fs logger].
      destruct (is_file (fs s) p); cbn [fs log set_queue logger];
        rewrite ?warnings_app; cbn; rewrite ?app_nil_r; auto. }
    destruct H1 as (Hfs1 & Hw1). cbn zeta. split; [congruence|].
    rewrite Hw, Hw1, Hfs1, <- app_assoc. f_equal.
    destruct (is_file (fs s) p) eqn:Ep.
    + rewrite filter_cons_False by congruence. reflexivity.
    + rewrite filter_cons_True by exact Ep. reflexivity.
Qed.

Lemma enqueue_vaults_warnings (vs : list (string * Path)) s :
  let s' := foldl enqueue_vault s vs in
  fs s' = fs s /\
  warnings (log s') =
    warnings (log s)
    ++ map not_a_file_warning
         (filter (fun p => is_file (fs s) p = false)
                 (flat_map (fun v => rglob_md (fs s) v.2) vs)).
Proof.
  revert s. induction vs as [|[v root] vs IH]; intros s.
  - cbn. rewrite app_nil_r. auto.
  - cbn [foldl]. destruct (IH (enqueue_vault s (v, root))) as (Hfs & Hw).
    assert (H1 : fs (enqueue_vault s (v, root)) = fs s /\
                 warnings (log (enqueue_vault s (v, root))) =
                 warnings (log s)
                 ++ map not_a_file_warning
                      (filter (fun p => is_file (fs s) p = false) (rglob_md (fs s) root))).
    { unfold enqueue_vault.
      destruct (enqueue_found_warnings v (rglob_md (fs s) root)
                  (logger INFO "Searching in root: %s..." [ArgPath root] s)) as (H1 & H2).
      cbn [fs log logger] in H1, H2. split; [exact H1|].
      rewrite H2, warnings_app. cbn. rewrite app_nil_r. reflexivity. }
    destruct H1 as (Hfs1 & Hw1). cbn zeta. split; [congruence|].
    rewrite Hw, Hw1, Hfs1, <- app_assoc. f_equal.
    cbn [flat_map snd]. rewrite filter_app, map_app. reflexivity.
Qed.

(** X14.  The constructor's scan warns once, with the path, for each entry named
    [*.md] that is not a regular file, in the order met, and warns of
    nothing else; when the database holds a note it logs nothing. *)
Theorem scan_warns_per_directory (disk : FS) (db : Database.t Emb)
    (vs : list (string * Path))
    (enc : list string -> Z -> Result (list Emb)) (watch : bool) (n m : Z) :
  warnings (log (__init__ disk db vs enc watch n m)) =
  if (Database.num_notes db =? 0)%Z
  then map not_a_file_warning
         (filter (fun p => is_file disk p = false)
                 (flat_map (fun v => rglob_md disk v.2) vs))
  else [].
Proof.
  unfold __init__. cbn [database].
  destruct (Database.num_notes db =? 0)%Z; [|reflexivity].
  unfold enqueue_all_note_paths_for_ingestion. cbn [vaults logger].
  match goal with |- context [foldl enqueue_vault ?s0 vs] =>
    destruct (enqueue_vaults_warnings vs s0) as (_ & Hw) end.
  rewrite Hw. reflexivity.
Qed.

End WithEmbedding.

End ScanProps.

(** ** The further statements at work on the small installations *)

Module MoreWitnesses.

Import Indexer Spec.

Lemma encoder_error_aborts_batch_witness :
  Example2.failing_encoder ["alpha"; "beta"] 16 = Raise (EncoderError "out of memory") /\
  exists s',
    _do_ingest_batch
      (Example.indexer Example2.failing_encoder [Example.a_md; Example.b_md] 2)
    = (Raise (EncoderError "out of memory"), s') /\
    database s' = ∅ /\ ingest_queue s' = [].
Proof.
  split; [reflexivity|].
  destruct (IndexerMore.encoder_error_aborts_batch
              (Example.indexer Example2.failing_encoder [Example.a_md; Example.b_md] 2)
              ["alpha"; "beta"] (EncoderError "out of memory") eq_refl eq_refl)
    as (s' & E & _ & Hdb & Hq & _).
  exists s'. split; [exact E|]. split; [exact Hdb|exact Hq].
Defined.

Lemma store_stops_at_first_bad_item_witness :
  dict_get (vaults (Example.indexer Example.encoder [] 2)) "other"
    = Raise (KeyError "other") /\
  exists s',
    _do_ingest_paths [Example.a_md; Example2.stranger; Example.b_md]
      (Example.indexer Example.encoder [] 2)
    = (Raise (KeyError "other"), s') /\
    count_events is_store (trace s') = 1.
Proof.
  assert (Hget : dict_get (vaults (Example.indexer Example.encoder [] 2)) "other"
                 = Raise (KeyError "other")) by reflexivity.
  split; [exact Hget|].
  destruct (IndexerMore.store_stops_at_first_bad_item
              [Example.a_md] [Example.b_md] "other" ["vault"; "b.md"]
              (Example.indexer Example.encoder [] 2) (KeyError "other"))
    as (s' & texts & stored & E & _ & _ & _ & _ & Hn & _).
  - repeat (apply Forall_cons_2; [reflexivity|]). apply Forall_nil_2.
  - apply Forall_cons_2; [|apply Forall_nil_2].
    exists ["vault"], ["a.md"]. split; reflexivity.
  - exact Witnesses.encoder_keeps_contract.
  - left. exact Hget.
  - exists s'. split; [exact E|exact Hn].
Defined.

Lemma ingest_round_trip_witness :
  is_ok (_do_ingest_paths [Example.a_md; Example.b_md]
           (Example.indexer Example.encoder [] 2)).1 = true /\
  exists emb,
    database (_do_ingest_paths [Example.a_md; Example.b_md]
                (Example.indexer Example.encoder [] 2)).2
      !! ("vault", ["a.md"])
    = Some {| Database.modified_time := 10; Database.embedding := emb |}.
Proof.
  assert (H : is_ok (_do_ingest_paths [Example.a_md; Example.b_md]
                       (Example.indexer Example.encoder [] 2)).1 = true)
    by (vm_compute; reflexivity).
  split; [exact H|].
  destruct (IndexerMore.ingest_round_trip [Example.a_md; Example.b_md]
              (Example.indexer Example.encoder [] 2) H) as (Hrec & _).
  destruct (Hrec "vault" ["vault"; "a.md"] (list_elem_of_here _ _))
    as (root & rel & m & emb & H1 & H2 & H3 & H4).
  injection H1 as <-. injection H2 as <-. injection H3 as <-.
  exists emb. exact H4.
Defined.

Lemma reingest_is_idempotent_witness :
  is_ok (_do_ingest_paths [Example.a_md; Example.a_md]
           (Example.indexer Example.encoder [] 2)).1 = true /\
  database
    (_do_ingest_paths [Example.a_md; Example.a_md]
       (_do_ingest_paths [Example.a_md; Example.a_md]
          (Example.indexer Example.encoder [] 2)).2).2
  = database
      (_do_ingest_paths [Example.a_md; Example.a_md]
         (Example.indexer Example.encoder [] 2)).2.
Proof.
  assert (H : is_ok (_do_ingest_paths [Example.a_md; Example.a_md]
                       (Example.indexer Example.encoder [] 2)).1 = true)
    by (vm_compute; reflexivity).
  split; [exact H|].
  exact (proj1 (proj2 (IndexerMore.reingest_is_idempotent
                         [Example.a_md; Example.a_md]
                         (Example.indexer Example.encoder [] 2) H))).
Defined.

Lemma nonpositive_batch_never_drains_witness :
  (ingest_batch_size (Example.indexer Example.encoder [Example.a_md] 0) <= 0)%Z /\
  exists s',
    run_ingestor 3 true (Example.indexer Example.encoder [Example.a_md] 0) = Running s' /\
    ingest_queue s' = [Example.a_md].
Proof.
  assert (H : (0 <= 0)%Z) by (intros E; discriminate E).
  split; [exact H|].
  destruct (IndexerMore.nonpositive_batch_never_drains
              (Example.indexer Example.encoder [Example.a_md] 0) H
              ltac:(discriminate) Witnesses.encoder_keeps_contract 3 true)
    as (s' & E & Hq & _).
  exists s'. split; [exact E|exact Hq].
Defined.



Lemma index_cmd_builds_index_witness :
  NoDup (map name [["one"]; ["two"]; ["three"]]) /\
  exists s' emb,
    Main.index_cmd 8 Example.disk3 ∅ Example.encoder
      [["one"]; ["two"]; ["three"]] false 32 16 = Returned s' /\
    count_events is_store (trace s') = 7 /\
    database s' !! ("one", ["deep"; "n4.md"])
    = Some {| Database.modified_time := 14; Database.embedding := emb |}.
Proof.
  assert (Hnd : NoDup (map name [["one"]; ["two"]; ["three"]]))
    by (apply (bool_decide_unpack _); vm_compute; exact I).
  split; [exact Hnd|].
  assert (Hall : Forall (fun vp =>
                           Forall (fun p => is_ok (read_text Example.disk3 p) = true)
                                  (note_files Example.disk3 vp))
                        [["one"]; ["two"]; ["three"]])
    by (apply (bool_decide_unpack _); vm_compute; exact I).
  assert (Hz : Database.num_notes (∅ : Database.t nat) = 0%Z) by reflexivity.
  assert (Hn1 : (1 <= 32)%Z) by (intros E; discriminate E).
  destruct (MainProps.index_cmd_builds_index Example.disk3 (∅ : Database.t nat)
              Example.encoder [["one"]; ["two"]; ["three"]] 32 16 Hnd Hz Hn1
              Witnesses.encoder_keeps_contract)
    as (s' & Hrun & _ & Hn & Hrec).
  - intros vp p Hvp Hp.
    exact (proj1 (Forall_forall _ _)
             (proj1 (Forall_forall _ _) Hall vp Hvp) p Hp).
  - destruct (Hrec ["one"] ["one"; "deep"; "n4.md"]) as (rel & mt & emb & H1 & H2 & H3).
    + apply list_elem_of_here.
    + apply (bool_decide_unpack _). vm_compute. exact I.
    + injection H1 as <-. injection H2 as <-.
      exists s', emb. split; [|split; [exact Hn|exact H3]].
      apply Hrun. vm_compute. repeat constructor.
Defined.


Lemma launch_rebuilds_vaults_witness :
  NoDup (map fst Example.vaults3) /\
  exists args,
    Launcher.run_background_indexer "python" "obsidian-index" Example.vaults3 ["index.db"]
    = Launcher.Popen args /\
    Main.vaults_of (option_values "--vault" args) = Example.vaults3.
Proof.
  assert (Hnd : NoDup (map fst Example.vaults3))
    by (apply (bool_decide_unpack _); vm_compute; exact I).
  split; [exact Hnd|].
  destruct (LauncherProps.launch_rebuilds_vaults "python" "obsidian-index"
              Example.vaults3 ["index.db"] Hnd) as (Hok & _).
  destruct Hok as (args & E & _ & _ & _ & _ & Hv & _).
  - repeat (apply Forall_cons_2; [reflexivity|]). apply Forall_nil_2.
  - exists args. split; [exact E|exact Hv].
Defined.

End MoreWitnesses.
